(** * XNotifBot: a shallow embedding of [XNotifBot/XNotifBot.py]

    The bot polls a rate-limited API, diffs what it fetched against
    [bot_state] and logs notifications.  The module-level dictionary
    [bot_state], the two files, standard output, the calls to [time.sleep]
    and the readings of the clock are threaded explicitly through a state
    monad over [World]. *)

From stdpp Require Import base gmap sets list strings pretty sorting.
From Stdlib Require Import ZArith Lia Ascii.

Local Open Scope string_scope.
Local Open Scope list_scope.
Local Open Scope Z_scope.

(** ** Dates and times

    [datetime] objects carry calendar fields.  The difference of two of them
    is a [timedelta]; Python keeps it as whole days, seconds and
    microseconds, which is one integer count of microseconds. *)

Record datetime := mk_datetime {
  year : Z; month : Z; day : Z;
  hour : Z; minute : Z; second : Z; microsecond : Z
}.

Definition is_leap (y : Z) : bool :=
  (y mod 4 =? 0) && (negb (y mod 100 =? 0) || (y mod 400 =? 0)).

Definition days_before_year (y : Z) : Z :=
  let y := y - 1 in y * 365 + y / 4 - y / 100 + y / 400.

Definition days_before_month (y m : Z) : Z :=
  nth (Z.to_nat m) [0; 0; 31; 59; 90; 120; 151; 181; 212; 243; 273; 304; 334] 0
  + (if (2 <? m) && is_leap y then 1 else 0).

Definition toordinal (d : datetime) : Z :=
  days_before_year (year d) + days_before_month (year d) (month d) + day d.

(** Microseconds in a timedelta. *)
Definition timedelta := Z.

Definition timedelta_minutes (m : Z) : timedelta := m * 60 * 1000000.

(** The instant of a datetime on the proleptic timeline, in microseconds:
    [a - b] on datetimes is [instant a - instant b], and
    [a - timedelta] is the datetime whose instant is [instant a - timedelta]. *)
Definition instant (d : datetime) : Z :=
  (toordinal d * 86400 + (second d + minute d * 60 + hour d * 3600)) * 1000000
  + microsecond d.

Definition datetime_sub (a b : datetime) : timedelta := instant a - instant b.

(** [zpad w n]: [n] in decimal, padded with zeros on the left to width [w]
    (the [%02d], [%04d] and [%06d] fields of [isoformat] and [strftime]). *)
Fixpoint zeros (n : nat) : string :=
  match n with O => "" | S n => "0" +:+ zeros n end.

Definition zpad (w : nat) (n : Z) : string :=
  let s := pretty n in zeros (w - String.length s) +:+ s.

(** [strftime("%Y-%m-%d %H:%M:%S")]. *)
Definition strftime_ymd_hms (d : datetime) : string :=
  zpad 4 (year d) +:+ "-" +:+ zpad 2 (month d) +:+ "-" +:+ zpad 2 (day d)
  +:+ " " +:+ zpad 2 (hour d) +:+ ":" +:+ zpad 2 (minute d) +:+ ":"
  +:+ zpad 2 (second d).

(** [str(d)] of a naive datetime, which is [d.isoformat(sep=' ')]: the
    microseconds are printed only when they are not zero. *)
Definition datetime_str (d : datetime) : string :=
  strftime_ymd_hms d
  +:+ (if microsecond d =? 0 then "" else "." +:+ zpad 6 (microsecond d)).

(** ** JSON documents, as [json.dump] writes and [json.load] reads them *)

Local Unset Elimination Schemes.
Inductive json :=
  | JNull
  | JInt (n : Z)
  | JStr (s : string)
  | JList (l : list json)
  | JObj (kvs : list (string * json)).
Local Set Elimination Schemes.

(** ** The data model *)

(** [public_metrics] of a post. *)
Record Metrics := mk_metrics {
  reply_count : Z; retweet_count : Z; like_count : Z; quote_count : Z
}.

(** A value of [last_check_time]: [should_check] stores a datetime,
    [load_state] brings back what [json.dump(..., default=str)] wrote,
    a string. *)
Inductive TimeVal :=
  | TDatetime (d : datetime)
  | TStr (s : string).

Record BotState := mk_state {
  user_id : option Z;
  last_follower_count : Z;
  last_tweet_id : option Z;
  processed_mentions : gset string;
  tweet_metrics : gmap string Metrics;
  notifications : list string;
  last_check_time : gmap string TimeVal
}.

(** The module-level initial value of [bot_state]. *)
Definition initial_state : BotState :=
  {| user_id := None; last_follower_count := 0; last_tweet_id := None;
     processed_mentions := ∅; tweet_metrics := ∅; notifications := [];
     last_check_time := ∅ |}.

#[global] Instance datetime_eq_dec : EqDecision datetime.
Proof. solve_decision. Defined.
#[global] Instance Metrics_eq_dec : EqDecision Metrics.
Proof. solve_decision. Defined.
#[global] Instance TimeVal_eq_dec : EqDecision TimeVal.
Proof. solve_decision. Defined.

(** ** The environment

    What the program does not decide: the readings of the clock, the parser
    behind [datetime.fromisoformat], the order in which a [set] of strings
    is iterated, and which file operations fail. *)

(** A [set] is an unordered collection: [list(s)] enumerates each member
    once, in the order of the hash table, which is fixed by the hashes of
    the members (string hashes are seeded per process) and by how the table
    was filled, not by the order of the calls to [add].  An order here is
    one enumeration for each set of members; what the statements below use
    of it is that it enumerates each member once, except where they name
    the order. *)
Record SetOrder := mk_set_order {
  set_list : gset string → list string;
  set_list_NoDup : ∀ s, NoDup (set_list s);
  set_list_elem : ∀ s x, x ∈ set_list s ↔ x ∈ s
}.

(** The outcome of opening a file and writing to it. *)
Inductive IOFault :=
  | NoFault
  | OpenError (msg : string)    (* [open] raised: nothing was touched *)
  | WriteError (msg : string).  (* raised after [open] succeeded *)

Record Env := mk_env {
  clock : nat → datetime;              (* the n-th reading of the clock *)
  fromisoformat : string → option datetime;
  set_order : SetOrder;
  io_fault : nat → IOFault             (* the n-th file operation *)
}.

(** The content of [STATE_FILE]. *)
Inductive StateFile :=
  | Absent
  | Document (doc : json)   (* a complete JSON text *)
  | Truncated.              (* opened with ['w'] and not written in full *)

Record World := mk_world {
  bot_state : BotState;
  state_file : StateFile;           (* bot_state.json *)
  notifications_file : list string; (* notifications.txt, entry by entry *)
  stdout : list string;             (* what [print] wrote *)
  slept : list Z;                   (* the arguments of [time.sleep] *)
  ticks : nat;                      (* readings of the clock so far *)
  io_ops : nat                      (* file operations so far *)
}.

(** ** The state monad *)

Definition M (A : Type) : Type := World → A * World.

#[global] Instance M_ret : MRet M := λ A a w, (a, w).
#[global] Instance M_bind : MBind M := λ A B k c w,
  let '(a, w') := c w in k a w'.

(** Nothing to do: a bare [return], or a branch that is not there. *)
Definition pass : M unit := mret tt.

Definition get_state : M BotState := λ w, (bot_state w, w).

Definition modify_state (f : BotState → BotState) : M unit := λ w,
  (tt, {| bot_state := f (bot_state w); state_file := state_file w;
          notifications_file := notifications_file w; stdout := stdout w;
          slept := slept w; ticks := ticks w; io_ops := io_ops w |}).

Definition print (line : string) : M unit := λ w,
  (tt, {| bot_state := bot_state w; state_file := state_file w;
          notifications_file := notifications_file w;
          stdout := stdout w ++ [line];
          slept := slept w; ticks := ticks w; io_ops := io_ops w |}).

(** [time.sleep(seconds)]. *)
Definition sleep (seconds : Z) : M unit := λ w,
  (tt, {| bot_state := bot_state w; state_file := state_file w;
          notifications_file := notifications_file w; stdout := stdout w;
          slept := slept w ++ [seconds];
          ticks := ticks w; io_ops := io_ops w |}).

(** [datetime.now()]: the next reading of the clock. *)
Definition datetime_now (env : Env) : M datetime := λ w,
  (clock env (ticks w),
   {| bot_state := bot_state w; state_file := state_file w;
      notifications_file := notifications_file w; stdout := stdout w;
      slept := slept w; ticks := S (ticks w); io_ops := io_ops w |}).

(** The outcome of the next file operation. *)
Definition file_op (env : Env) : M IOFault := λ w,
  (io_fault env (io_ops w),
   {| bot_state := bot_state w; state_file := state_file w;
      notifications_file := notifications_file w; stdout := stdout w;
      slept := slept w; ticks := ticks w; io_ops := S (io_ops w) |}).

Definition write_state_file (content : StateFile) : M unit := λ w,
  (tt, {| bot_state := bot_state w; state_file := content;
          notifications_file := notifications_file w; stdout := stdout w;
          slept := slept w; ticks := ticks w; io_ops := io_ops w |}).

Definition append_notifications_file (entry : string) : M unit := λ w,
  (tt, {| bot_state := bot_state w; state_file := state_file w;
          notifications_file := notifications_file w ++ [entry];
          stdout := stdout w;
          slept := slept w; ticks := ticks w; io_ops := io_ops w |}).

(** Assignments to the keys of [bot_state]. *)
Definition set_last_follower_count (n : Z) (st : BotState) : BotState :=
  {| user_id := user_id st; last_follower_count := n;
     last_tweet_id := last_tweet_id st;
     processed_mentions := processed_mentions st;
     tweet_metrics := tweet_metrics st; notifications := notifications st;
     last_check_time := last_check_time st |}.

Definition set_last_tweet_id (i : option Z) (st : BotState) : BotState :=
  {| user_id := user_id st; last_follower_count := last_follower_count st;
     last_tweet_id := i;
     processed_mentions := processed_mentions st;
     tweet_metrics := tweet_metrics st; notifications := notifications st;
     last_check_time := last_check_time st |}.

Definition set_processed_mentions (s : gset string) (st : BotState) : BotState :=
  {| user_id := user_id st; last_follower_count := last_follower_count st;
     last_tweet_id := last_tweet_id st;
     processed_mentions := s;
     tweet_metrics := tweet_metrics st; notifications := notifications st;
     last_check_time := last_check_time st |}.

Definition set_tweet_metrics (m : gmap string Metrics) (st : BotState) : BotState :=
  {| user_id := user_id st; last_follower_count := last_follower_count st;
     last_tweet_id := last_tweet_id st;
     processed_mentions := processed_mentions st;
     tweet_metrics := m; notifications := notifications st;
     last_check_time := last_check_time st |}.

Definition set_notifications (l : list string) (st : BotState) : BotState :=
  {| user_id := user_id st; last_follower_count := last_follower_count st;
     last_tweet_id := last_tweet_id st;
     processed_mentions := processed_mentions st;
     tweet_metrics := tweet_metrics st; notifications := l;
     last_check_time := last_check_time st |}.

Definition set_last_check_time (m : gmap string TimeVal) (st : BotState) : BotState :=
  {| user_id := user_id st; last_follower_count := last_follower_count st;
     last_tweet_id := last_tweet_id st;
     processed_mentions := processed_mentions st;
     tweet_metrics := tweet_metrics st; notifications := notifications st;
     last_check_time := m |}.

(** ** Persistence: [save_state] and [load_state] *)

Definition STATE_FILE : string := "bot_state.json".
Definition NOTIFICATIONS_FILE : string := "notifications.txt".

Definition enc_opt_int (o : option Z) : json :=
  match o with None => JNull | Some n => JInt n end.

Definition enc_metrics (m : Metrics) : json :=
  JObj [("retweet_count", JInt (retweet_count m));
        ("reply_count", JInt (reply_count m));
        ("like_count", JInt (like_count m));
        ("quote_count", JInt (quote_count m))].

(** [json.dump(..., default=str)]: a datetime is not serialisable, so it is
    written as [str(d)]; a string is written as it is. *)
Definition enc_time (v : TimeVal) : json :=
  match v with
  | TDatetime d => JStr (datetime_str d)
  | TStr s => JStr s
  end.

Definition enc_dict {A} (enc : A → json) (m : gmap string A) : json :=
  JObj (prod_map id enc <$> map_to_list m).

(** [save_data]: a shallow copy of [bot_state] whose [processed_mentions]
    is [list(bot_state["processed_mentions"])], as [json.dump] renders it.
    (The members of an inner object are listed in the order of
    [map_to_list]; no key occurs twice, so the order is of no consequence
    to [json.load].) *)
Definition save_data (o : SetOrder) (st : BotState) : json :=
  JObj [("user_id", enc_opt_int (user_id st));
        ("last_follower_count", JInt (last_follower_count st));
        ("last_tweet_id", enc_opt_int (last_tweet_id st));
        ("processed_mentions",
           JList (JStr <$> set_list o (processed_mentions st)));
        ("tweet_metrics", enc_dict enc_metrics (tweet_metrics st));
        ("notifications", JList (JStr <$> notifications st));
        ("last_check_time", enc_dict enc_time (last_check_time st))].

(** [open(STATE_FILE, 'w')] truncates the file as soon as it succeeds; the
    text is written after that. *)
Definition save_state (env : Env) : M unit :=
  st ← get_state;
  let save_data := save_data (set_order env) st in
  fault ← file_op env;
  match fault with
  | NoFault =>
      write_state_file (Document save_data);;
      print ("State saved to " +:+ STATE_FILE)
  | OpenError e =>
      print ("Error saving state: " +:+ e)
  | WriteError e =>
      write_state_file Truncated;;
      print ("Error saving state: " +:+ e)
  end.

(** A JSON object read into a [dict]: a later duplicate of a key wins. *)
Definition dict_of_pairs {A} (kvs : list (string * A)) : gmap string A :=
  foldl (λ m kv, <[kv.1 := kv.2]> m) ∅ kvs.

Definition dec_int (j : json) : option Z :=
  match j with JInt n => Some n | _ => None end.

Definition dec_opt_int (j : json) : option (option Z) :=
  match j with JNull => Some None | JInt n => Some (Some n) | _ => None end.

Definition dec_str (j : json) : option string :=
  match j with JStr s => Some s | _ => None end.

Definition dec_str_list (j : json) : option (list string) :=
  match j with JList l => mapM dec_str l | _ => None end.

Definition dec_metrics (j : json) : option Metrics :=
  match j with
  | JObj kvs =>
      let d := dict_of_pairs kvs in
      rp ← d !! "reply_count" ≫= dec_int;
      rt ← d !! "retweet_count" ≫= dec_int;
      lk ← d !! "like_count" ≫= dec_int;
      qt ← d !! "quote_count" ≫= dec_int;
      Some (mk_metrics rp rt lk qt)
  | _ => None
  end.

Definition dec_time (j : json) : option TimeVal := TStr <$> dec_str j.

Definition dec_dict {A} (dec : json → option A) (j : json)
    : option (gmap string A) :=
  match j with
  | JObj kvs =>
      dict_of_pairs <$> mapM (λ kv, v ← dec kv.2; Some (kv.1, v)) kvs
  | _ => None
  end.

(** One key of [bot_state.update(data)]: a key that [data] lacks keeps its
    value.  [None] when the value in the file is of another type than the
    ones the program itself stores under that key. *)
Definition update_key {A} (data : gmap string json) (key : string)
    (dec : json → option A) (old : A) : option A :=
  match data !! key with
  | None => Some old
  | Some j => dec j
  end.

Definition update_state (data : gmap string json) (mentions : gset string)
    (st : BotState) : option BotState :=
  uid ← update_key data "user_id" dec_opt_int (user_id st);
  lfc ← update_key data "last_follower_count" dec_int (last_follower_count st);
  lti ← update_key data "last_tweet_id" dec_opt_int (last_tweet_id st);
  tm ← update_key data "tweet_metrics" (dec_dict dec_metrics) (tweet_metrics st);
  ns ← update_key data "notifications" dec_str_list (notifications st);
  lct ← update_key data "last_check_time" (dec_dict dec_time) (last_check_time st);
  Some {| user_id := uid; last_follower_count := lfc; last_tweet_id := lti;
          processed_mentions := mentions; tweet_metrics := tm;
          notifications := ns; last_check_time := lct |}.

(** The text of the [JSONDecodeError] that [json.load] raises on a file
    that holds no complete document. *)
Definition json_decode_error : string :=
  "Expecting value: line 1 column 1 (char 0)".

(** The text of the [TypeError] of [data["processed_mentions"]] when the
    document is not an object. *)
Definition not_subscriptable (j : json) : string :=
  match j with
  | JList _ => "list indices must be integers or slices, not str"
  | JStr _ => "string indices must be integers, not 'str'"
  | JInt _ => "'int' object is not subscriptable"
  | _ => "'NoneType' object is not subscriptable"
  end.

(** The results of [load_state].  [Unmodelled]: the file holds a document
    that [save_state] does not write (a value of a type that [BotState] has
    no place for); Python would store it as it is. *)
Inductive LoadResult :=
  | Loaded (b : bool) (w : World)
  | Unmodelled.

Definition load_state (env : Env) (w : World) : LoadResult :=
  match state_file w with
  | Absent => Loaded false w                 (* os.path.exists *)
  | content =>
      let '(fault, w) := file_op env w in
      match fault with
      | NoFault =>
          match content with
          | Document (JObj kvs) =>
              let data := dict_of_pairs kvs in
              match data !! "processed_mentions" with
              | None =>                      (* KeyError *)
                  Loaded false
                    (print "Error loading state: 'processed_mentions'" w).2
              | Some j =>
                  match dec_str_list j with
                  | None => Unmodelled
                  | Some l =>
                      match update_state data (list_to_set l) (bot_state w) with
                      | None => Unmodelled
                      | Some st =>
                          Loaded true
                            ((modify_state (λ _, st);;
                              print ("State loaded from " +:+ STATE_FILE)) w).2
                      end
                  end
              end
          | Document j =>                    (* TypeError: not a dict *)
              Loaded false
                (print ("Error loading state: " +:+ not_subscriptable j) w).2
          | _ =>                             (* JSONDecodeError *)
              Loaded false
                (print ("Error loading state: " +:+ json_decode_error) w).2
          end
      | OpenError e | WriteError e =>
          Loaded false (print ("Error loading state: " +:+ e) w).2
      end
  end.

(** ** The notifier sink: [log_notification] *)

Definition nl : string := String (Ascii.ascii_of_nat 10) "".

(** [s[:n]] *)
Definition prefix (n : nat) (s : string) : string := String.substring 0 n s.

Definition append_notification (entry : string) (st : BotState) : BotState :=
  set_notifications (notifications st ++ [entry]) st.

Definition log_notification (env : Env) (message : string) : M unit :=
  now ← datetime_now env;
  let timestamp := strftime_ymd_hms now in
  let log_entry := "[" +:+ timestamp +:+ "] " +:+ message +:+ nl in
  modify_state (append_notification log_entry);;
  fault ← file_op env;
  match fault with
  | NoFault =>
      append_notifications_file log_entry;;
      print ("Notification logged: " +:+ prefix 50 message +:+ "...")
  | OpenError e | WriteError e =>
      print ("Error logging notification: " +:+ e)
  end.

(** ** The check scheduler: [should_check] *)

Definition record_check (check_type : string) (now : datetime)
    (st : BotState) : BotState :=
  set_last_check_time (<[check_type := TDatetime now]> (last_check_time st)) st.

(** [time_passed.total_seconds() / 60 >= min_interval_minutes] compares
    minutes; on the microseconds of the timedelta it is
    [min_interval_minutes * 60 * 10^6 <= time_passed].  Arithmetic on
    datetimes is exact, so [now - (now - timedelta(minutes=m + 1))] is
    [m + 1] minutes; the datetimes are kept by their [instant].

    This is the function where it returns: every datetime here is naive,
    as [datetime.now()] and the strings that [save_state] writes are.  The
    two exceptions that escape it on other stored strings are in
    [should_check_or_raise] below, which returns what this one returns
    wherever it returns. *)
Definition should_check (env : Env) (check_type : string)
    (min_interval_minutes : Z) : M bool :=
  now ← datetime_now env;
  st ← get_state;
  match last_check_time st !! check_type with
  | None =>
      modify_state (record_check check_type now);;
      mret true
  | Some last_check =>
      (* the instant of [last_check], once converted back from a string *)
      let last_check :=
        match last_check with
        | TDatetime d => instant d
        | TStr s =>
            match fromisoformat env s with
            | Some d => instant d
            | None => instant now - timedelta_minutes (min_interval_minutes + 1)
            end
        end in
      let time_passed := instant now - last_check in
      let should_proceed :=
        timedelta_minutes min_interval_minutes <=? time_passed in
      (if should_proceed then modify_state (record_check check_type now)
       else pass);;
      mret should_proceed
  end.

(** ** The gated call executor: [safe_api_call] *)

(** What one invocation of the wrapped callable does. *)
Inductive Outcome (R : Type) :=
  | Returns (r : R)
  | TooManyRequests                (* tweepy.errors.TooManyRequests *)
  | OtherError (e : string).       (* any other Exception *)
Arguments Returns {R} r.
Arguments TooManyRequests {R}.
Arguments OtherError {R} e.

Definition max_retries : nat := 3.

(** The loop [while retry_count < max_retries], by the number of attempts
    that remain: [retry_count] is [max_retries - remaining], and [func k] is
    the outcome of the invocation that follows [k] failed ones.
    ([traceback.print_exc] writes to standard error, which is not kept.) *)
Fixpoint safe_api_loop {R} (func : nat → Outcome R) (remaining : nat)
    : M (option R) :=
  match remaining with
  | O =>
      print ("Failed after " +:+ pretty max_retries +:+ " attempts");;
      mret None
  | S remaining' =>
      let retry_count := (max_retries - remaining)%nat in
      match func retry_count with
      | Returns r => mret (Some r)
      | TooManyRequests =>
          let retry_count := S retry_count in
          let wait_time := 60 * 2 ^ Z.of_nat retry_count in
          print ("Rate limited. Waiting " +:+ pretty wait_time
                 +:+ " seconds before retry " +:+ pretty retry_count
                 +:+ "/" +:+ pretty max_retries +:+ "...");;
          sleep wait_time;;
          safe_api_loop func remaining'
      | OtherError e =>
          print ("API call error: " +:+ e);;
          let retry_count := S retry_count in
          let wait_time := 30 * Z.of_nat retry_count in
          print ("Waiting " +:+ pretty wait_time
                 +:+ " seconds before retry " +:+ pretty retry_count
                 +:+ "/" +:+ pretty max_retries +:+ "...");;
          sleep wait_time;;
          safe_api_loop func remaining'
      end
  end.

Definition safe_api_call {R} (func : nat → Outcome R) : M (option R) :=
  safe_api_loop func max_retries.

(** ** The API as the detectors see it *)

Record User := mk_user {
  u_id : Z; username : string; followers_count : Z
}.

Record Tweet := mk_tweet {
  t_id : Z; text : string; created_at : datetime; author_id : Z;
  public_metrics : Metrics
}.

(** A [tweepy.Response]; [data] is [None] when nothing was found. *)
Record Response (A : Type) := mk_response { data : option A }.
Arguments mk_response {A} data.
Arguments data {A} r.

(** The behaviour of the client during one run of a detector: for each
    operation, the outcome of its k-th invocation in a row. *)
Record Client := mk_client {
  get_user : nat → Outcome (Response User);
  get_users_tweets : nat → Outcome (Response (list Tweet));
  get_users_mentions : nat → Outcome (Response (list Tweet));
  get_users : nat → Outcome (Response (list User))
}.

(** [not r or not r.data] for an operation that returns a list: the call
    gave up, or found nothing.  Otherwise [r.data] is a first item and the
    rest. *)
Definition fetched {A} (r : option (Response (list A)))
    : option (A * list A) :=
  match r ≫= data with
  | Some (x :: l) => Some (x, l)
  | _ => None
  end.

(** [for x in l: body], with the flag that the body may set. *)
Fixpoint for_each {A} (l : list A) (body : A → bool → M bool) (flag : bool)
    : M bool :=
  match l with
  | [] => mret flag
  | x :: l => flag ← body x flag; for_each l body flag
  end.

Section Detectors.

Context (env : Env).
(** [TWITTER_USERNAME], read from the process environment. *)
Context (TWITTER_USERNAME : string).

(** *** The follower detector *)

Definition check_new_followers (client : Client) : M unit :=
  ok ← should_check env "followers" 60;
  if negb ok then pass else
  print "Checking for new followers...";;
  user_data ← safe_api_call (get_user client);
  match user_data ≫= data with
  | None => print "Failed to get user data"
  | Some user =>
      let current_follower_count := followers_count user in
      st ← get_state;
      if last_follower_count st =? 0 then
        modify_state (set_last_follower_count current_follower_count);;
        save_state env
      else
        let follower_diff := current_follower_count - last_follower_count st in
        (if negb (follower_diff =? 0) then
           log_notification env
             ("Follower count changed by " +:+ pretty follower_diff
              +:+ ". New total: " +:+ pretty current_follower_count)
         else pass);;
        modify_state (set_last_follower_count current_follower_count);;
        save_state env
  end.

(** *** The new-post detector *)

Definition new_tweet_message (newest_tweet : Tweet) : string :=
  let tweet_url := "https://twitter.com/" +:+ TWITTER_USERNAME
                   +:+ "/status/" +:+ pretty (t_id newest_tweet) in
  let metrics := public_metrics newest_tweet in
  "New tweet posted!" +:+ nl
  +:+ "Content: " +:+ prefix 100 (text newest_tweet) +:+ "..." +:+ nl
  +:+ "Replies: " +:+ pretty (reply_count metrics) +:+ nl
  +:+ "Retweets: " +:+ pretty (retweet_count metrics) +:+ nl
  +:+ "Likes: " +:+ pretty (like_count metrics) +:+ nl
  +:+ "Quotes: " +:+ pretty (quote_count metrics) +:+ nl
  +:+ "URL: " +:+ tweet_url.

Definition check_new_tweets (client : Client) : M unit :=
  ok ← should_check env "tweets" 30;
  if negb ok then pass else
  print "Checking for new tweets...";;
  tweets ← safe_api_call (get_users_tweets client);
  match fetched tweets with
  | None => print "No tweets found or error retrieving tweets"
  | Some (newest_tweet, _) =>                (* tweets.data[0] *)
      let newest_tweet_id := t_id newest_tweet in
      st ← get_state;
      match last_tweet_id st with
      | None =>
          modify_state (set_last_tweet_id (Some newest_tweet_id));;
          save_state env
      | Some last =>
          if negb (String.eqb (pretty newest_tweet_id) (pretty last)) then
            log_notification env (new_tweet_message newest_tweet);;
            modify_state (set_last_tweet_id (Some newest_tweet_id));;
            save_state env
          else pass
      end
  end.

(** *** The mention detector *)

Definition mention_message (author_username : string) (tweet : Tweet)
    : string :=
  let tweet_url := "https://twitter.com/" +:+ author_username
                   +:+ "/status/" +:+ pretty (t_id tweet) in
  let metrics := public_metrics tweet in
  "New mention from @" +:+ author_username +:+ "!" +:+ nl
  +:+ "Content: " +:+ prefix 100 (text tweet) +:+ "..." +:+ nl
  +:+ "Replies: " +:+ pretty (reply_count metrics) +:+ nl
  +:+ "Retweets: " +:+ pretty (retweet_count metrics) +:+ nl
  +:+ "Likes: " +:+ pretty (like_count metrics) +:+ nl
  +:+ "URL: " +:+ tweet_url.

Definition add_processed (i : string) (st : BotState) : BotState :=
  set_processed_mentions ({[ i ]} ∪ processed_mentions st) st.

(** The body of [for tweet in mentions.data].  [now] is read in the time
    zone of the mention, so the two datetimes subtract as they stand;
    [(now - tweet_time).total_seconds() > 86400] compares seconds, which on
    the microseconds of the timedelta is [86400 * 10^6 < now - tweet_time]. *)
Definition mention_body (author_map : gmap Z User) (tweet : Tweet)
    (new_mentions_found : bool) : M bool :=
  st ← get_state;
  if bool_decide (pretty (t_id tweet) ∈ processed_mentions st) then
    mret new_mentions_found                  (* continue *)
  else
    modify_state (add_processed (pretty (t_id tweet)));;
    let new_mentions_found := true in
    let tweet_time := created_at tweet in
    now ← datetime_now env;
    if 86400 * 1000000 <? datetime_sub now tweet_time then
      mret new_mentions_found                (* continue *)
    else
      let author := author_map !! author_id tweet in
      let author_username :=
        match author with Some a => username a | None => "unknown" end in
      log_notification env (mention_message author_username tweet);;
      mret new_mentions_found.

(** [l[-n:]] *)
Definition last_n {A} (n : nat) (l : list A) : list A :=
  drop (length l - n) l.

(** [set(list(bot_state["processed_mentions"])[-50:])] *)
Definition evict_mentions (st : BotState) : BotState :=
  set_processed_mentions
    (list_to_set
       (last_n 50 (set_list (set_order env) (processed_mentions st)))) st.

Definition check_mentions (client : Client) : M unit :=
  ok ← should_check env "mentions" 45;
  if negb ok then pass else
  print "Checking for mentions...";;
  mentions ← safe_api_call (get_users_mentions client);
  match fetched mentions with
  | None => print "No mentions found or error retrieving mentions"
  | Some (mention, rest) =>
      let mentions_data := mention :: rest in
      authors ← safe_api_call (get_users client);
      let author_map : gmap Z User :=
        match authors ≫= data with
        | Some (u :: us) =>
            foldl (λ m user, <[u_id user := user]> m) ∅ (u :: us)
        | _ => ∅
        end in
      new_mentions_found ← for_each mentions_data (mention_body author_map) false;
      if (new_mentions_found : bool) then
        st ← get_state;
        (if (100 <? size (processed_mentions st))%nat then
           modify_state evict_mentions
         else pass);;
        save_state env
      else pass
  end.

(** *** The engagement detector *)

Definition engagement_message (tweet : Tweet) (change_text : list string)
    : string :=
  let tweet_id := pretty (t_id tweet) in
  let metrics := public_metrics tweet in
  let tweet_url := "https://twitter.com/" +:+ TWITTER_USERNAME
                   +:+ "/status/" +:+ tweet_id in
  "Engagement update on tweet!" +:+ nl
  +:+ "Content: " +:+ prefix 100 (text tweet) +:+ "..." +:+ nl
  +:+ String.concat ", " change_text +:+ nl
  +:+ "Current totals: " +:+ pretty (reply_count metrics) +:+ " replies, "
  +:+ pretty (retweet_count metrics) +:+ " retweets, "
  +:+ pretty (like_count metrics) +:+ " likes" +:+ nl
  +:+ "URL: " +:+ tweet_url.

Definition store_metrics (tweet_id : string) (metrics : Metrics)
    (st : BotState) : BotState :=
  set_tweet_metrics (<[tweet_id := metrics]> (tweet_metrics st)) st.

(** The body of [for tweet in tweets.data]. *)
Definition engagement_body (tweet : Tweet) (engagement_updates : bool)
    : M bool :=
  let tweet_id := pretty (t_id tweet) in
  let metrics := public_metrics tweet in
  st ← get_state;
  match tweet_metrics st !! tweet_id with
  | None =>
      modify_state (store_metrics tweet_id metrics);;
      mret true                              (* continue *)
  | Some prev =>
      let like_diff := like_count metrics - like_count prev in
      let rt_diff := retweet_count metrics - retweet_count prev in
      let reply_diff := reply_count metrics - reply_count prev in
      let change_text :=
        (if 10 <=? like_diff then ["+" +:+ pretty like_diff +:+ " likes"]
         else [])
        ++ (if 5 <=? rt_diff then ["+" +:+ pretty rt_diff +:+ " retweets"]
            else [])
        ++ (if 3 <=? reply_diff then ["+" +:+ pretty reply_diff +:+ " replies"]
            else []) in
      let significant_change :=
        (10 <=? like_diff) || (5 <=? rt_diff) || (3 <=? reply_diff) in
      (if significant_change then
         log_notification env (engagement_message tweet change_text)
       else pass);;
      modify_state (store_metrics tweet_id metrics);;
      mret true
  end.

(** Descending order on identifiers, as [sorted(..., reverse=True)] on
    strings has it: strings compare character by character. *)
Definition str_ge (a b : string) : Prop := String.leb b a = true.

#[local] Instance str_ge_dec : RelDecision str_ge.
Proof. intros a b. unfold str_ge. apply _. Defined.

Definition sorted_ids (m : gmap string Metrics) : list string :=
  merge_sort str_ge (map_to_list m).*1.

(** [{tweet_id: tweet_metrics[tweet_id] for tweet_id in sorted_ids[:10]}];
    every identifier of [sorted_ids] is a key, so no lookup fails. *)
Definition evict_metrics (st : BotState) : BotState :=
  let m := tweet_metrics st in
  set_tweet_metrics
    (dict_of_pairs
       (omap (λ tweet_id, pair tweet_id <$> m !! tweet_id)
             (take 10 (sorted_ids m)))) st.

Definition check_tweet_engagement (client : Client) : M unit :=
  ok ← should_check env "engagement" 120;
  if negb ok then pass else
  st ← get_state;
  match last_tweet_id st with
  | None => pass
  | Some _ =>
      print "Checking tweet engagement...";;
      tweets ← safe_api_call (get_users_tweets client);
      match fetched tweets with
      | None => print "No tweets found or error retrieving tweets"
      | Some (tweet, rest) =>
          let tweets_data := tweet :: rest in
          engagement_updates ← for_each tweets_data engagement_body false;
          if (engagement_updates : bool) then
            st ← get_state;
            (if (10 <? size (tweet_metrics st))%nat then
               modify_state evict_metrics
             else pass);;
            save_state env
          else pass
      end
  end.

End Detectors.

(** ** A concrete environment

    Used to run the definitions: a parser for the renderings that
    [datetime_str] produces (a date, then possibly a time, then possibly
    microseconds), the enumeration [elements] of stdpp as the order of
    iteration of a set, and a disk that does not fail. *)

Definition digit (c : Ascii.ascii) : option Z :=
  let n := Z.of_N (Ascii.N_of_ascii c) in
  if (48 <=? n) && (n <=? 57) then Some (n - 48) else None.

Fixpoint number (s : string) (acc : Z) : option Z :=
  match s with
  | EmptyString => Some acc
  | String c s => d ← digit c; number s (acc * 10 + d)
  end.

(** The decimal field of [len] characters at [start]. *)
Definition field (start len : nat) (s : string) : option Z :=
  let f := String.substring start len s in
  if (String.length f =? len)%nat then number f 0 else None.

Definition char_at (pos : nat) (c : Ascii.ascii) (s : string) : option unit :=
  match String.get pos s with
  | Some c' => if Ascii.eqb c c' then Some tt else None
  | None => None
  end.

Definition days_in_month (y m : Z) : Z :=
  if (m =? 2) && is_leap y then 29
  else nth (Z.to_nat m) [0; 31; 28; 31; 30; 31; 30; 31; 31; 30; 31; 30; 31] 0.

Definition valid_datetime (d : datetime) : bool :=
  (1 <=? year d) && (year d <=? 9999)
  && (1 <=? month d) && (month d <=? 12)
  && (1 <=? day d) && (day d <=? days_in_month (year d) (month d))
  && (0 <=? hour d) && (hour d <? 24)
  && (0 <=? minute d) && (minute d <? 60)
  && (0 <=? second d) && (second d <? 60)
  && (0 <=? microsecond d) && (microsecond d <? 1000000).

Definition checked (d : datetime) : option datetime :=
  if valid_datetime d then Some d else None.

Definition parse_isoformat (s : string) : option datetime :=
  y ← field 0 4 s; _ ← char_at 4 "-"%char s;
  mo ← field 5 2 s; _ ← char_at 7 "-"%char s;
  d ← field 8 2 s;
  if (String.length s =? 10)%nat then checked (mk_datetime y mo d 0 0 0 0)
  else
    _ ← String.get 10 s;                     (* any separator *)
    h ← field 11 2 s; _ ← char_at 13 ":"%char s;
    mi ← field 14 2 s; _ ← char_at 16 ":"%char s;
    sec ← field 17 2 s;
    if (String.length s =? 19)%nat then checked (mk_datetime y mo d h mi sec 0)
    else
      _ ← char_at 19 "."%char s;
      us ← field 20 6 s;
      if (String.length s =? 26)%nat then checked (mk_datetime y mo d h mi sec us)
      else None.

Definition elements_order : SetOrder :=
  {| set_list := elements;
     set_list_NoDup := NoDup_elements;
     set_list_elem := λ s x, elem_of_elements s x |}.

(** A clock that starts on 2024-05-01 at noon and gains a second a
    reading. *)
Definition noon : datetime := mk_datetime 2024 5 1 12 0 0 0.

Definition ticking_clock (n : nat) : datetime :=
  mk_datetime 2024 5 1 12 (Z.of_nat n / 60) (Z.of_nat n mod 60) 0.

Definition plain_env : Env :=
  {| clock := ticking_clock; fromisoformat := parse_isoformat;
     set_order := elements_order; io_fault := λ _, NoFault |}.

Definition fresh_world : World :=
  {| bot_state := initial_state; state_file := Absent;
     notifications_file := []; stdout := []; slept := [];
     ticks := 0; io_ops := 0 |}.

(** ** The exceptions that escape [should_check]

    The [try] of [should_check] guards the call of [fromisoformat] only.
    The handler, [now - timedelta(minutes=min_interval_minutes + 1)], and
    the subtraction [now - last_check] that follows are outside it: the
    first raises [OverflowError] when the result is not a datetime, the
    second [TypeError] when [last_check] carries a UTC offset, since [now]
    is naive. *)

(** What [datetime.fromisoformat] makes of a string. *)
Inductive Parsed :=
  | Unparseable                            (* it raises *)
  | Naive (d : datetime)                   (* no UTC offset: [tzinfo] is None *)
  | Aware (d : datetime) (utcoffset : Z).  (* an offset, in minutes *)

Inductive Exception :=
  | TypeError
  | OverflowError.

Inductive Result (A : Type) :=
  | Return (a : A)
  | Raise (e : Exception).
Arguments Return {A} a.
Arguments Raise {A} e.

(** [datetime.min] and [datetime.max]. *)
Definition datetime_min : datetime := mk_datetime 1 1 1 0 0 0 0.
Definition datetime_max : datetime := mk_datetime 9999 12 31 23 59 59 999999.

(** [now - timedelta(minutes=m)], as an instant.  A timedelta that reaches
    from a datetime to a datetime is within what [timedelta] holds, so the
    only failure is a result before [datetime.min] or after
    [datetime.max]. *)
Definition minus_minutes (now : datetime) (m : Z) : Result Z :=
  let i := instant now - timedelta_minutes m in
  if (instant datetime_min <=? i) && (i <=? instant datetime_max)
  then Return i else Raise OverflowError.

(** [last_check] once converted: the instant of a naive datetime, or a
    datetime with an offset. *)
Inductive LastCheck :=
  | NaiveAt (i : Z)
  | AwareDatetime.

Definition should_check_or_raise (env : Env) (parse : string → Parsed)
    (check_type : string) (min_interval_minutes : Z)
    : World → Result bool * World := λ w,
  let '(now, w) := datetime_now env w in
  match last_check_time (bot_state w) !! check_type with
  | None =>
      (Return true, (modify_state (record_check check_type now) w).2)
  | Some last_check =>
      let last_check : Result LastCheck :=
        match last_check with
        | TDatetime d => Return (NaiveAt (instant d))
        | TStr s =>
            match parse s with
            | Naive d => Return (NaiveAt (instant d))
            | Aware _ _ => Return AwareDatetime
            | Unparseable =>                 (* except: *)
                match minus_minutes now (min_interval_minutes + 1) with
                | Return i => Return (NaiveAt i)
                | Raise e => Raise e
                end
            end
        end in
      match last_check with
      | Raise e => (Raise e, w)
      | Return AwareDatetime => (Raise TypeError, w)   (* now - last_check *)
      | Return (NaiveAt last_check) =>
          let time_passed := instant now - last_check in
          let should_proceed :=
            timedelta_minutes min_interval_minutes <=? time_passed in
          (Return should_proceed,
           if should_proceed
           then (modify_state (record_check check_type now) w).2
           else w)
      end
  end.

(** The parser of an environment, which knows naive datetimes only, as
    far as it goes. *)
Definition naive_only (p : Parsed) : option datetime :=
  match p with
  | Naive d => Some d
  | _ => None
  end.

(** A concrete parser that also reads a UTC offset [+HH:MM] or [-HH:MM]
    after the time, as [str] prints an offset-aware datetime. *)
Definition parse_utcoffset (s : string) : option Z :=
  sign ← match String.get 0 s with
         | Some c =>
             if Ascii.eqb c "+"%char then Some 1
             else if Ascii.eqb c "-"%char then Some (-1)
             else None
         | None => None
         end;
  h ← field 1 2 s; _ ← char_at 3 ":"%char s;
  mi ← field 4 2 s;
  if (String.length s =? 6)%nat && (h <? 24) && (mi <? 60)
  then Some (sign * (h * 60 + mi)) else None.

Definition parse_isoformat_tz (s : string) : Parsed :=
  let n := String.length s in
  match parse_utcoffset (String.substring (n - 6) 6 s) with
  | Some utcoffset =>
      match parse_isoformat (String.substring 0 (n - 6) s) with
      | Some d =>
          if (25 <=? n)%nat then Aware d utcoffset else Unparseable
      | None => Unparseable
      end
  | None =>
      match parse_isoformat s with
      | Some d => Naive d
      | None => Unparseable
      end
  end.

(** ** The entry point: [main]

    [main] is taken block by block: what it does between loading the state
    and entering the loop, one pass through the body of the loop, and the
    handlers of the loop.  The exceptions that the handlers catch come from
    outside what is modelled here (none of the functions above raises), so
    each handler is a definition of its own. *)

Definition set_user_id (i : option Z) (st : BotState) : BotState :=
  {| user_id := i; last_follower_count := last_follower_count st;
     last_tweet_id := last_tweet_id st;
     processed_mentions := processed_mentions st;
     tweet_metrics := tweet_metrics st; notifications := notifications st;
     last_check_time := last_check_time st |}.

(** The truth value of [bot_state["user_id"]]: [None] and [0] are false. *)
Definition known (i : option Z) : bool :=
  match i with
  | Some i => negb (i =? 0)
  | None => false
  end.

(** [seconds / 60] as an f-string prints it, a float.  The quotient is
    exact on the multiples of 60, the only arguments here. *)
Definition minutes (seconds : Z) : string := pretty (seconds / 60) +:+ ".0".

Section Main.

Context (env : Env).
Context (TWITTER_USERNAME : string).

(** From [print("Initializing...")] to the loop.  [by_name], [by_id] and
    [timeline] are the three requests, each with the outcome of its k-th
    invocation in a row.  The result is [false] when [main] returns
    without entering the loop. *)
Definition main_setup (by_name by_id : nat → Outcome (Response User))
    (timeline : nat → Outcome (Response (list Tweet))) : M bool :=
  print "Initializing... waiting 5 seconds";;
  sleep 5;;
  st ← get_state;
  found ←
    (if negb (known (user_id st)) then
       print ("Looking up user ID for @" +:+ TWITTER_USERNAME +:+ "...");;
       user ← safe_api_call by_name;
       match user ≫= data with
       | Some u =>
           modify_state (set_user_id (Some (u_id u)));;
           print ("User ID: " +:+ pretty (u_id u));;
           save_state env;;
           mret true
       | None =>
           print ("Failed to get user ID. "
                  +:+ "Check your Twitter credentials and username.");;
           mret false                        (* return *)
       end
     else mret true);
  if negb found then mret false else
  st ← get_state;
  (if last_follower_count st =? 0 then
     print "Getting initial follower count...";;
     user_data ← safe_api_call by_id;
     match user_data ≫= data with
     | Some u =>
         modify_state (set_last_follower_count (followers_count u));;
         print ("Initial follower count: " +:+ pretty (followers_count u));;
         save_state env
     | None => pass
     end
   else pass);;
  st ← get_state;
  match last_tweet_id st with
  | None =>
      print "Getting initial tweet ID...";;
      tweets ← safe_api_call timeline;
      match fetched tweets with
      | Some (tweet, _) =>                   (* tweets.data[0] *)
          modify_state (set_last_tweet_id (Some (t_id tweet)));;
          print ("Initial latest tweet ID: " +:+ pretty (t_id tweet));;
          save_state env
      | None => pass
      end
  | Some _ => pass
  end;;
  log_notification env "X Notification Bot is now running!";;
  mret true.


(** [except KeyboardInterrupt], in the loop and around it. *)
Definition main_on_interrupt : M unit :=
  print (nl +:+ "Bot stopped by user.");;
  log_notification env "Bot stopped by user.";;
  save_state env.

(** [except Exception as e] in the loop; [e] is [str(e)].  The result is
    the new [consecutive_errors].  ([traceback.print_exc] writes to
    standard error, which is not kept.) *)
Definition main_on_error (e : string) (consecutive_errors : nat) : M nat :=
  let consecutive_errors := S consecutive_errors in
  let backoff_time := Z.min (300 * Z.of_nat consecutive_errors) 3600 in
  let error_message := "Error in monitoring loop: " +:+ e in
  print error_message;;
  print ("Consecutive errors: " +:+ pretty consecutive_errors
         +:+ ". Backing off for " +:+ minutes backoff_time +:+ " minutes");;
  (if (consecutive_errors <=? 3)%nat then
     log_notification env ("Error: " +:+ e)
   else pass);;
  save_state env;;
  sleep backoff_time;;
  mret consecutive_errors.

(** [except Exception as e] around the loop. *)
Definition main_on_fatal (e : string) : M unit :=
  let error_message := "Fatal error: " +:+ e in
  print error_message;;
  log_notification env error_message;;
  save_state env.

End Main.

(** ** Inputs used in the statements *)

(** The waits of [n] rate-limited attempts in a row: 120, 240, 480. *)
Definition rate_limit_waits (n : nat) : list Z :=
  (λ i : nat, 60 * 2 ^ Z.of_nat (S i)) <$> seq 0 n.

(** Fails twice with a rate-limit error, then returns 7. *)
Definition third_time_lucky (n : nat) : Outcome Z :=
  if (n <? 2)%nat then TooManyRequests else Returns 7.

(** A world whose stored timestamp for ["followers"] is not a date. *)
Definition corrupted_world : World :=
  {| bot_state :=
       set_last_check_time {[ "followers" := TStr "garbage" ]} initial_state;
     state_file := Absent; notifications_file := []; stdout := [];
     slept := []; ticks := 0; io_ops := 0 |}.

(** The entry that [log_notification] makes of a message at a given
    reading of the clock. *)
Definition log_entry (now : datetime) (message : string) : string :=
  "[" +:+ strftime_ymd_hms now +:+ "] " +:+ message +:+ nl.

(** A world that tracks post 1700000000000000001 with 1 reply, 1 retweet
    and 5 likes. *)
Definition tracking_world : World :=
  {| bot_state :=
       set_tweet_metrics
         {[ "1700000000000000001" := mk_metrics 1 1 5 0 ]}
         (set_last_tweet_id (Some 1700000000000000001) initial_state);
     state_file := Absent; notifications_file := []; stdout := [];
     slept := []; ticks := 0; io_ops := 0 |}.

(** The same post, fetched with the given counters. *)
Definition fetched_post (replies retweets likes : Z) : Tweet :=
  {| t_id := 1700000000000000001; text := "hello"; created_at := noon;
     author_id := 1; public_metrics := mk_metrics replies retweets likes 0 |}.

(** The identifiers of a list of mentions, as [processed_mentions] holds
    them. *)
Definition mention_ids (l : list Tweet) : gset string :=
  list_to_set ((λ t, pretty (t_id t)) <$> l).

(** A clock that starts on 2024-05-01 at noon and gains an hour a
    reading. *)
Definition hourly_clock (n : nat) : datetime :=
  mk_datetime 2024 5 1 (12 + Z.of_nat n) 0 0 0.

Definition hourly_env : Env :=
  {| clock := hourly_clock; fromisoformat := parse_isoformat;
     set_order := elements_order; io_fault := λ _, NoFault |}.

(** The identifiers [from], [from + 1], ..., [from + n - 1], as strings. *)
Definition id_range (from : Z) (n : nat) : list string :=
  (λ i : nat, pretty (from + Z.of_nat i)) <$> seq 0 n.

(** A world whose [processed_mentions] holds the given identifiers.  (The
    set keeps its members, not the order in which they were added.) *)
Definition processed_world (ids : list string) : World :=
  {| bot_state := set_processed_mentions (list_to_set ids) initial_state;
     state_file := Absent; notifications_file := []; stdout := [];
     slept := []; ticks := 0; io_ops := 0 |}.

(** A world that has processed the hundred mentions 1000 to 1099. *)
Definition full_world : World := processed_world (id_range 1000 100).

(** The [n] identifiers that were added last, when [history] lists the
    identifiers in the order in which they were added. *)
Definition most_recent (n : nat) (history : list string) : gset string :=
  list_to_set (drop (length history - n) history).

Definition mention (i : Z) (created : datetime) : Tweet :=
  {| t_id := i; text := "hi @me"; created_at := created; author_id := 42;
     public_metrics := mk_metrics 0 0 0 0 |}.

(** A client whose every operation succeeds at once: it finds the given
    mentions (and user 42, their author). *)
Definition client_with (mentions : list Tweet) : Client :=
  {| get_user := λ _, Returns (mk_response (Some (mk_user 1 "me" 10)));
     get_users_tweets := λ _, Returns (mk_response None);
     get_users_mentions := λ _, Returns (mk_response (Some mentions));
     get_users := λ _, Returns (mk_response (Some [mk_user 42 "fan" 3])) |}.

(** Mention 1100, made at eleven, an hour before [hourly_clock] starts. *)
Definition fresh_mention : Tweet := mention 1100 (mk_datetime 2024 5 1 11 0 0 0).

(** Mention 1100 again, but made more than a day before [hourly_clock]
    starts (25 hours before its second reading). *)
Definition stale_mention : Tweet := mention 1100 (mk_datetime 2024 4 30 12 0 0 0).

(** The four checks of a cycle, each with the name and the interval its
    detector passes to [should_check], and the fetch it starts with. *)
Inductive Check := Followers | Tweets | Mentions | Engagement.

Definition check_name (c : Check) : string :=
  match c with
  | Followers => "followers" | Tweets => "tweets"
  | Mentions => "mentions" | Engagement => "engagement"
  end.

Definition check_interval (c : Check) : Z :=
  match c with
  | Followers => 60 | Tweets => 30 | Mentions => 45 | Engagement => 120
  end.

Definition detector (env : Env) (TWITTER_USERNAME : string) (c : Check)
    : Client → M unit :=
  match c with
  | Followers => check_new_followers env
  | Tweets => check_new_tweets env TWITTER_USERNAME
  | Mentions => check_mentions env
  | Engagement => check_tweet_engagement env TWITTER_USERNAME
  end.

(** The fetch of the detector gave up, or found nothing
    ([not r or not r.data]).  What [safe_api_call] returns does not depend
    on the world it runs in. *)
Definition fetch_failed (c : Check) (client : Client) (w : World) : Prop :=
  match c with
  | Followers => (safe_api_call (get_user client) w).1 ≫= data = None
  | Tweets | Engagement =>
      fetched (safe_api_call (get_users_tweets client) w).1 = None
  | Mentions => fetched (safe_api_call (get_users_mentions client) w).1 = None
  end.

(** A client that is rate limited on every call. *)
Definition throttled_client : Client :=
  {| get_user := λ _, TooManyRequests;
     get_users_tweets := λ _, TooManyRequests;
     get_users_mentions := λ _, TooManyRequests;
     get_users := λ _, TooManyRequests |}.

(** What [json.dump(..., default=str)] followed by [json.load] makes of a
    value of [last_check_time]. *)
Definition as_saved (v : TimeVal) : TimeVal :=
  match v with
  | TDatetime d => TStr (datetime_str d)
  | TStr s => TStr s
  end.

(** A disk that is full: files open, writes fail. *)
Definition full_disk_env : Env :=
  {| clock := ticking_clock; fromisoformat := parse_isoformat;
     set_order := elements_order;
     io_fault := λ _, WriteError "[Errno 28] No space left on device" |}.

(** The world after the gate for ["followers"] opened for the first time:
    [last_check_time] holds a datetime. *)
Definition gated_world : World :=
  (should_check plain_env "followers" 60 fresh_world).2.

(** A world whose state file holds an earlier, complete copy. *)
Definition saved_world : World := (save_state plain_env tracking_world).2.

(** A post with the given identifier. *)
Definition post (i : Z) : Tweet :=
  {| t_id := i; text := "post"; created_at := noon; author_id := 1;
     public_metrics := mk_metrics 0 0 0 0 |}.

(** A client whose every operation succeeds at once and that finds the
    given posts. *)
Definition client_with_tweets (tweets : list Tweet) : Client :=
  {| get_user := λ _, Returns (mk_response (Some (mk_user 1 "me" 10)));
     get_users_tweets := λ _, Returns (mk_response (Some tweets));
     get_users_mentions := λ _, Returns (mk_response None);
     get_users := λ _, Returns (mk_response None) |}.

(** The identifiers of ten tracked posts: one of 18 digits, the oldest, and
    nine of 19 digits. *)
Definition ten_ids : list Z :=
  999999999999999999
  :: ((λ i : nat, 1000000000000000000 + Z.of_nat i) <$> seq 1 9).

(** A world that tracks these ten posts. *)
Definition ten_tracked_world : World :=
  {| bot_state :=
       set_tweet_metrics
         (list_to_map ((λ i, (pretty i, mk_metrics 0 0 0 0)) <$> ten_ids))
         (set_last_tweet_id (Some 1000000000000000009) initial_state);
     state_file := Absent; notifications_file := []; stdout := [];
     slept := []; ticks := 0; io_ops := 0 |}.

(** A timestamp with a UTC offset, as [str] prints an offset-aware
    datetime. *)
Definition aware_stamp : string := "2024-05-01 12:00:00+00:00".

(** A world whose state was loaded from a file that holds [aware_stamp] as
    the time of the last check for ["followers"]. *)
Definition aware_world : World :=
  {| bot_state :=
       set_last_check_time {[ "followers" := TStr aware_stamp ]} initial_state;
     state_file := Absent; notifications_file := []; stdout := [];
     slept := []; ticks := 0; io_ops := 0 |}.

(** ** Further inputs *)

(** The wait that follows the failure of attempt [i] (counted from 0):
    [retry_count] is [i + 1] by then, whatever the earlier failures were. *)
Definition wait_after {R} (i : nat) (o : Outcome R) : Z :=
  match o with
  | TooManyRequests => 60 * 2 ^ Z.of_nat (S i)
  | _ => 30 * Z.of_nat (S i)
  end.

(** Fails with a network error, then with a rate-limit error, then
    returns 7. *)
Definition flaky_then_lucky (n : nat) : Outcome Z :=
  match n with
  | O => OtherError "Connection reset"
  | S O => TooManyRequests
  | _ => Returns 7
  end.

(** The sum of a list of waits. *)
Definition total (l : list Z) : Z := foldr Z.add 0 l.

(** [gated_world] as it is after a restart: the timestamps went through
    the state file. *)
Definition reloaded_world : World :=
  {| bot_state :=
       set_last_check_time
         (as_saved <$> last_check_time (bot_state gated_world))
         (bot_state gated_world);
     state_file := Absent; notifications_file := []; stdout := [];
     slept := []; ticks := ticks gated_world; io_ops := 0 |}.

(** A world whose state file holds a document without the key
    ["processed_mentions"]. *)
Definition legacy_world : World :=
  {| bot_state := initial_state;
     state_file :=
       Document (JObj [("user_id", JInt 7); ("last_follower_count", JInt 3)]);
     notifications_file := []; stdout := []; slept := [];
     ticks := 0; io_ops := 0 |}.

(** A world that tracks a post and whose state file holds only a user and
    two processed mentions. *)
Definition partial_world : World :=
  {| bot_state := bot_state tracking_world;
     state_file :=
       Document (JObj [("user_id", JInt 7);
                       ("processed_mentions", JList [JStr "5"; JStr "6"])]);
     notifications_file := []; stdout := []; slept := [];
     ticks := 0; io_ops := 0 |}.

(** [legacy_world] after the attempt to load its file. *)
Definition legacy_world_rejected : World :=
  {| bot_state := initial_state; state_file := state_file legacy_world;
     notifications_file := [];
     stdout := ["Error loading state: 'processed_mentions'"]; slept := [];
     ticks := 0; io_ops := 1 |}.

(** ** Relations between the world before and after a run *)

(** [c] keeps [R]: the world after a run of [c] is related by [R] to the
    world before. *)
Definition keeps (R : relation World) {A} (c : M A) : Prop :=
  ∀ w, R w (c w).2.

(** What a detector for check [c] may change is its own slice of
    [bot_state]: everything named here stays. *)
Definition slice_frame (c : Check) (w w' : World) : Prop :=
  user_id (bot_state w') = user_id (bot_state w)
  ∧ (c ≠ Followers →
       last_follower_count (bot_state w') = last_follower_count (bot_state w))
  ∧ (c ≠ Tweets → last_tweet_id (bot_state w') = last_tweet_id (bot_state w))
  ∧ (c ≠ Mentions →
       processed_mentions (bot_state w') = processed_mentions (bot_state w))
  ∧ (c ≠ Engagement →
       tweet_metrics (bot_state w') = tweet_metrics (bot_state w))
  ∧ (∀ other, other ≠ check_name c →
       last_check_time (bot_state w') !! other
       = last_check_time (bot_state w) !! other).

(** Notifications are only appended, in memory and in the file, and what
    reached the file is part of what was appended in memory. *)
Definition appends (w w' : World) : Prop :=
  ∃ new filed,
    notifications (bot_state w') = notifications (bot_state w) ++ new
    ∧ notifications_file w' = notifications_file w ++ filed
    ∧ filed `sublist_of` new.

(** The file and the memory received the same entries. *)
Definition mirrors (w w' : World) : Prop :=
  ∃ new,
    notifications (bot_state w') = notifications (bot_state w) ++ new
    ∧ notifications_file w' = notifications_file w ++ new.

(** No file operation fails. *)
Definition healthy (env : Env) : Prop := ∀ n, io_fault env n = NoFault.

(** The message of the follower detector. *)
Definition follower_message (last current : Z) : string :=
  "Follower count changed by " +:+ pretty (current - last)
  +:+ ". New total: " +:+ pretty current.

(** A world that knows of ten followers. *)
Definition ten_followers_world : World :=
  {| bot_state := set_last_follower_count 10 initial_state;
     state_file := Absent; notifications_file := []; stdout := [];
     slept := []; ticks := 0; io_ops := 0 |}.

(** A client that finds the account with the given number of followers. *)
Definition client_with_followers (n : Z) : Client :=
  {| get_user := λ _, Returns (mk_response (Some (mk_user 1 "me" n)));
     get_users_tweets := λ _, Returns (mk_response None);
     get_users_mentions := λ _, Returns (mk_response None);
     get_users := λ _, Returns (mk_response None) |}.

(** A world whose last observed post is 1700000000000000001. *)
Definition posted_world : World :=
  {| bot_state := set_last_tweet_id (Some 1700000000000000001) initial_state;
     state_file := Absent; notifications_file := []; stdout := [];
     slept := []; ticks := 0; io_ops := 0 |}.

(** Four fetched mentions with two distinct new identifiers among them:
    1100 twice, 1101, and 1005, which [full_world] has processed. *)
Definition repeated_mentions : list Tweet :=
  [fresh_mention; mention 1005 noon; fresh_mention; mention 1101 noon].

(** The counters a run of the engagement detector leaves for the fetched
    posts: each post overwrites the entry of its identifier, in the order
    fetched. *)
Definition track (m : gmap string Metrics) (l : list Tweet)
    : gmap string Metrics :=
  foldl (λ m t, <[pretty (t_id t) := public_metrics t]> m) m l.

(** Whether the growth from [prev] to [metrics] is worth a notification. *)
Definition significant (prev metrics : Metrics) : bool :=
  (10 <=? like_count metrics - like_count prev)
  || (5 <=? retweet_count metrics - retweet_count prev)
  || (3 <=? reply_count metrics - reply_count prev).

(** A world with a baseline post but no tracked counters. *)
Definition untracked_world : World :=
  {| bot_state := set_last_tweet_id (Some 1700000000000000001) initial_state;
     state_file := Absent; notifications_file := []; stdout := [];
     slept := []; ticks := 0; io_ops := 0 |}.

(** The state file holds the state in memory. *)
Definition persisted (env : Env) (w : World) : Prop :=
  state_file w = Document (save_data (set_order env) (bot_state w)).

(** No timestamp of [last_check_time] is removed. *)
Definition stamps (w w' : World) : Prop :=
  ∀ k, is_Some (last_check_time (bot_state w) !! k) →
       is_Some (last_check_time (bot_state w') !! k).

(** The pauses between the two worlds are those of retries: between 30
    and 480 seconds each. *)
Definition retries (w w' : World) : Prop :=
  ∃ waits, slept w' = slept w ++ waits ∧ Forall (λ x, 30 ≤ x ≤ 480) waits.

(** The entry that [main] logs before it enters the loop. *)
Definition running_entry (now : datetime) : string :=
  log_entry now "X Notification Bot is now running!".

(** A world whose user is known, with neither a follower count nor a post
    observed so far. *)
Definition known_user_world : World :=
  {| bot_state := set_user_id (Some 1) initial_state;
     state_file := Absent; notifications_file := []; stdout := [];
     slept := []; ticks := 0; io_ops := 0 |}.

(** The two ways in which [main] stops: interrupted by the user, or by an
    error raised outside the body of the loop. *)
Inductive Stop :=
  | Interrupted
  | Fatal (e : string).

Definition main_on_stop (env : Env) (s : Stop) : M unit :=
  match s with
  | Interrupted => main_on_interrupt env
  | Fatal e => main_on_fatal env e
  end.

(** The message that the handler of a stop logs. *)
Definition stop_message (s : Stop) : string :=
  match s with
  | Interrupted => "Bot stopped by user."
  | Fatal e => "Fatal error: " +:+ e
  end.

(** * Properties *)

(** Unfolds the monad and the primitive actions. *)
Ltac run :=
  repeat (cbn -[Z.mul Z.pow Z.sub Z.add Z.leb Z.ltb Z.eqb pretty String.append
                size elements merge_sort instant lookup insert safe_api_call
                for_each Nat.ltb mention_ids foldl] in *;
          unfold mbind, M_bind, mret, M_ret, pass, get_state, modify_state,
            print, sleep, datetime_now, file_op, write_state_file,
            append_notifications_file in * ).

(** ** The gated call executor *)

(** The result of [safe_api_call] does not depend on the world it runs
    in, and the call leaves [bot_state] alone. *)
Lemma safe_api_loop_result {R} (func : nat → Outcome R) remaining w w' :
  (safe_api_loop func remaining w).1 = (safe_api_loop func remaining w').1.
Proof.
  revert w w'. induction remaining as [|n IH]; intros w w'; [done|].
  cbn [safe_api_loop]. destruct (func _); [done| |]; run; apply IH.
Qed.

Lemma safe_api_call_result {R} (func : nat → Outcome R) w w' :
  (safe_api_call func w).1 = (safe_api_call func w').1.
Proof. apply safe_api_loop_result. Qed.

Lemma safe_api_loop_frame {R} (func : nat → Outcome R) remaining w :
  let w' := (safe_api_loop func remaining w).2 in
  bot_state w' = bot_state w ∧ state_file w' = state_file w
  ∧ notifications_file w' = notifications_file w
  ∧ ticks w' = ticks w ∧ io_ops w' = io_ops w.
Proof.
  revert w. induction remaining as [|n IH]; intros w; [done|].
  cbn [safe_api_loop]. destruct (func _); [done| |]; run.
  all: match goal with |- context [safe_api_loop _ _ ?w1] =>
         destruct (IH w1) as (-> & -> & -> & -> & ->) end; done.
Qed.

Lemma safe_api_call_frame {R} (func : nat → Outcome R) w :
  let w' := (safe_api_call func w).2 in
  bot_state w' = bot_state w ∧ state_file w' = state_file w
  ∧ notifications_file w' = notifications_file w
  ∧ ticks w' = ticks w ∧ io_ops w' = io_ops w.
Proof. apply safe_api_loop_frame. Qed.

(** C1, as the specification states it, fails: a call that is rate limited
    twice and then succeeds has slept 120 and then 240 seconds, not 60 and
    then 120. *)
Lemma safe_api_call_sleeps_120_240 :
  (safe_api_call third_time_lucky fresh_world).1 = Some 7
  ∧ slept (safe_api_call third_time_lucky fresh_world).2 = [120; 240]
  ∧ slept (safe_api_call third_time_lucky fresh_world).2 ≠ [60; 120].
Proof. vm_compute. repeat split; congruence. Qed.

(** C1, amended: [retry_count] is incremented before the wait is computed,
    so the wait after the i-th failed attempt (counting from 1) is
    [60 * 2^i] seconds: 120, 240 and 480.  A call that is rate limited on
    its first [k] attempts and, when [k < 3], succeeds on the next returns
    that result after exactly these [k] waits; with [k = 3] it gives up and
    returns [None] after all three. *)
Theorem safe_api_call_rate_limit_backoff {R} (func : nat → Outcome R)
    (k : nat) (r : R) (w : World) :
  (k ≤ max_retries)%nat →
  (∀ i, (i < k)%nat → func i = TooManyRequests) →
  ((k < max_retries)%nat → func k = Returns r) →
  (safe_api_call func w).1 = (if (k <? max_retries)%nat then Some r else None)
  ∧ slept (safe_api_call func w).2 = slept w ++ rate_limit_waits k.
Proof.
  unfold max_retries, safe_api_call. intros Hk Hfail Hok.
  destruct k as [|[|[|[|k]]]]; [| | | |lia].
  - rewrite app_nil_r. cbn [safe_api_loop Nat.sub max_retries]. rewrite Hok by lia. done.
  - cbn [safe_api_loop Nat.sub max_retries].
    rewrite (Hfail 0%nat) by lia. run. rewrite Hok by lia. done.
  - cbn [safe_api_loop Nat.sub max_retries].
    rewrite (Hfail 0%nat) by lia. run. rewrite (Hfail 1%nat) by lia. run.
    rewrite Hok by lia. run. by rewrite <- app_assoc.
  - cbn [safe_api_loop Nat.sub max_retries].
    rewrite (Hfail 0%nat) by lia. run. rewrite (Hfail 1%nat) by lia. run.
    rewrite (Hfail 2%nat) by lia. run. by rewrite <- !app_assoc.
Qed.

Lemma safe_api_call_rate_limit_backoff_witness :
  (safe_api_call third_time_lucky fresh_world).1 = Some 7
  ∧ slept (safe_api_call third_time_lucky fresh_world).2
    = slept fresh_world ++ [120; 240].
Proof.
  apply (safe_api_call_rate_limit_backoff third_time_lucky 2 7 fresh_world).
  - unfold max_retries. lia.
  - intros [|[|i]] Hi; [reflexivity | reflexivity | lia].
  - reflexivity.
Defined.

(** ** The check scheduler *)

Lemma should_check_ticks env check_type m w :
  ticks (should_check env check_type m w).2 = S (ticks w).
Proof.
  unfold should_check. run.
  destruct (last_check_time (bot_state w) !! check_type); [|done].
  run. by destruct (_ <=? _).
Qed.

(** When the gate opens it records the reading of the clock it took, and
    touches nothing else of [bot_state]. *)
Lemma should_check_true env check_type m w :
  (should_check env check_type m w).1 = true →
  bot_state (should_check env check_type m w).2
  = record_check check_type (clock env (ticks w)) (bot_state w).
Proof.
  unfold should_check. run.
  destruct (last_check_time (bot_state w) !! check_type); [|done].
  run. by destruct (_ <=? _).
Qed.

(** When the gate stays shut only the clock was read. *)
Lemma should_check_false env check_type m w :
  (should_check env check_type m w).1 = false →
  (should_check env check_type m w).2 = (datetime_now env w).2.
Proof.
  unfold should_check. run.
  destruct (last_check_time (bot_state w) !! check_type); [|done].
  run. by destruct (_ <=? _).
Qed.

(** The gate stays shut while less than the interval has passed since the
    stored datetime. *)
Lemma should_check_too_early env check_type m d w :
  last_check_time (bot_state w) !! check_type = Some (TDatetime d) →
  datetime_sub (clock env (ticks w)) d < timedelta_minutes m →
  should_check env check_type m w = (false, (datetime_now env w).2).
Proof.
  unfold should_check, datetime_sub. intros Hlast Hlt. run. rewrite Hlast.
  destruct (_ <=? _) eqn:E; [lia|done].
Qed.

(** C5: with a positive interval, the first call for a check type returns
    true and records the reading of the clock as the type's timestamp; a
    second call that follows at once (its reading of the clock is less than
    a minute later, no time at all included) returns false and leaves the
    stored timestamp, and all of [bot_state], as they were. *)
Theorem should_check_first_then_again env check_type m w :
  0 < m →
  last_check_time (bot_state w) !! check_type = None →
  datetime_sub (clock env (S (ticks w))) (clock env (ticks w))
    < timedelta_minutes 1 →
  let first := should_check env check_type m w in
  let second := should_check env check_type m first.2 in
  first.1 = true
  ∧ last_check_time (bot_state first.2) !! check_type
    = Some (TDatetime (clock env (ticks w)))
  ∧ second.1 = false
  ∧ bot_state second.2 = bot_state first.2.
Proof.
  intros Hm Hnone Hsoon first second.
  assert (Hfirst : first = (true, (modify_state
            (record_check check_type (clock env (ticks w)))
            (datetime_now env w).2).2)).
  { unfold first, should_check. run. by rewrite Hnone. }
  assert (Hstored : last_check_time (bot_state first.2) !! check_type
                    = Some (TDatetime (clock env (ticks w)))).
  { rewrite Hfirst. run. apply lookup_insert_eq. }
  assert (Hsecond : second = (false, (datetime_now env first.2).2)).
  { apply should_check_too_early with (d := clock env (ticks w)); [done|].
    rewrite Hfirst. run. unfold timedelta_minutes in *. lia. }
  rewrite Hsecond. rewrite Hfirst in *. done.
Qed.

Lemma should_check_first_then_again_witness :
  let first := should_check plain_env "followers" 60 fresh_world in
  let second := should_check plain_env "followers" 60 first.2 in
  first.1 = true
  ∧ last_check_time (bot_state first.2) !! "followers"
    = Some (TDatetime (clock plain_env (ticks fresh_world)))
  ∧ second.1 = false
  ∧ bot_state second.2 = bot_state first.2.
Proof.
  apply (should_check_first_then_again plain_env "followers" 60 fresh_world).
  - lia.
  - reflexivity.
  - vm_compute. reflexivity.
Defined.

(** A timestamp that went through the state file is read back by the gate:
    where the parser inverts [str], the gate decides on the saved string as
    it does on the datetime. *)
Lemma should_check_reads_saved env check_type m d w w' :
  last_check_time (bot_state w) !! check_type = Some (TDatetime d) →
  last_check_time (bot_state w') !! check_type = Some (TStr (datetime_str d)) →
  fromisoformat env (datetime_str d) = Some d →
  ticks w' = ticks w →
  (should_check env check_type m w').1 = (should_check env check_type m w).1.
Proof.
  intros Hd Hs Hparse Hticks. unfold should_check. run.
  rewrite Hd, Hs, Hparse, Hticks. run.
  by destruct (_ <=? _).
Qed.

Example parse_isoformat_noon :
  parse_isoformat (datetime_str noon) = Some noon.
Proof. reflexivity. Qed.

Example parse_isoformat_microseconds :
  parse_isoformat (datetime_str (mk_datetime 2024 2 29 23 59 59 120))
  = Some (mk_datetime 2024 2 29 23 59 59 120).
Proof. reflexivity. Qed.

Example parse_isoformat_garbage : parse_isoformat "garbage" = None.
Proof. reflexivity. Qed.

(** ** The gate on a stored string *)

Example parse_isoformat_tz_aware :
  parse_isoformat_tz aware_stamp = Aware noon 0.
Proof. reflexivity. Qed.

Example parse_isoformat_tz_naive :
  parse_isoformat_tz (datetime_str noon) = Naive noon
  ∧ parse_isoformat_tz
      (datetime_str (mk_datetime 2024 2 29 23 59 59 120))
    = Naive (mk_datetime 2024 2 29 23 59 59 120)
  ∧ parse_isoformat_tz "garbage" = Unparseable.
Proof. repeat split. Qed.

(** Wherever [should_check_or_raise] returns, [should_check] returns the
    same and leaves the same world, for an environment whose parser reads
    the stored string as the full parser does. *)
Lemma should_check_or_raise_returns env parse check_type m w b w' :
  (∀ s, last_check_time (bot_state w) !! check_type = Some (TStr s) →
        fromisoformat env s = naive_only (parse s)) →
  should_check_or_raise env parse check_type m w = (Return b, w') →
  should_check env check_type m w = (b, w').
Proof.
  intros Hparse. unfold should_check_or_raise, should_check. run.
  destruct (last_check_time (bot_state w) !! check_type) as [[d|s]|] eqn:Hlast.
  - run. intros [= <- <-]. by destruct (_ <=? _).
  - rewrite (Hparse s eq_refl). destruct (parse s) as [|d|d off]; run.
    + unfold minus_minutes. destruct (_ && _); [|done]. run.
      intros [= <- <-]. by destruct (_ <=? _).
    + intros [= <- <-]. by destruct (_ <=? _).
    + done.
  - run. by intros [= <- <-].
Qed.

(** Where the claim holds: a string that [fromisoformat] rejects makes the
    gate open and record the reading of the clock, as long as the datetime
    one minute more than the interval in the past exists. *)
Lemma should_check_or_raise_fails_open env parse check_type m s w :
  last_check_time (bot_state w) !! check_type = Some (TStr s) →
  parse s = Unparseable →
  instant datetime_min
    ≤ instant (clock env (ticks w)) - timedelta_minutes (m + 1)
    ≤ instant datetime_max →
  let out := should_check_or_raise env parse check_type m w in
  out.1 = Return true
  ∧ last_check_time (bot_state out.2) !! check_type
    = Some (TDatetime (clock env (ticks w))).
Proof.
  intros Hlast Hparse Hrange. unfold should_check_or_raise. run.
  rewrite Hlast, Hparse. unfold minus_minutes.
  assert ((instant datetime_min
           <=? instant (clock env (ticks w)) - timedelta_minutes (m + 1))
          && (instant (clock env (ticks w)) - timedelta_minutes (m + 1)
              <=? instant datetime_max) = true) as ->.
  { apply andb_true_iff. split; apply Z.leb_le; lia. }
  assert ((timedelta_minutes m <=?
           instant (clock env (ticks w))
           - (instant (clock env (ticks w)) - timedelta_minutes (m + 1)))
          = true) as ->.
  { unfold timedelta_minutes. lia. }
  run. split; [done|]. apply lookup_insert_eq.
Qed.

(** C6 against the code.  A stored timestamp that [fromisoformat] reads as
    a datetime with a UTC offset is not replaced: the subtraction
    [now - last_check], outside the [try], raises [TypeError].  The call
    has read the clock and changed nothing else, so the string is still
    there, and every later call for the check type raises again: the gate
    does not open. *)
Theorem should_check_raises_on_aware_stamp env parse check_type m s d
    utcoffset w :
  last_check_time (bot_state w) !! check_type = Some (TStr s) →
  parse s = Aware d utcoffset →
  let out := should_check_or_raise env parse check_type m w in
  out = (Raise TypeError, (datetime_now env w).2)
  ∧ bot_state out.2 = bot_state w
  ∧ ∀ w2, bot_state w2 = bot_state out.2 →
          (should_check_or_raise env parse check_type m w2).1
          = Raise TypeError.
Proof.
  intros Hlast Hparse.
  assert (Hraise : ∀ w2, bot_state w2 = bot_state w →
            should_check_or_raise env parse check_type m w2
            = (Raise TypeError, (datetime_now env w2).2)).
  { intros w2 Hsame. unfold should_check_or_raise. run.
    by rewrite Hsame, Hlast, Hparse. }
  cbv zeta. rewrite (Hraise w eq_refl). cbn [fst snd datetime_now bot_state].
  split; [done|]. split; [done|].
  intros w2 Hsame. by rewrite (Hraise w2 Hsame).
Qed.

Lemma should_check_raises_on_aware_stamp_witness :
  let out :=
    should_check_or_raise plain_env parse_isoformat_tz "followers" 60
      aware_world in
  out = (Raise TypeError, (datetime_now plain_env aware_world).2)
  ∧ bot_state out.2 = bot_state aware_world
  ∧ ∀ w2, bot_state w2 = bot_state out.2 →
          (should_check_or_raise plain_env parse_isoformat_tz "followers" 60
             w2).1
          = Raise TypeError.
Proof.
  apply (should_check_raises_on_aware_stamp plain_env parse_isoformat_tz
           "followers" 60 aware_stamp noon 0 aware_world); reflexivity.
Defined.

(** ** The notifier sink and the state store, as the detectors use them *)

Lemma log_notification_state env message w :
  bot_state (log_notification env message w).2
  = append_notification (log_entry (clock env (ticks w)) message) (bot_state w).
Proof. unfold log_notification. run. by destruct (io_fault env (io_ops w)). Qed.

Lemma log_notification_ticks env message w :
  ticks (log_notification env message w).2 = S (ticks w).
Proof. unfold log_notification. run. by destruct (io_fault env (io_ops w)). Qed.

Lemma save_state_state env w :
  bot_state (save_state env w).2 = bot_state w.
Proof. unfold save_state. run. by destruct (io_fault env (io_ops w)). Qed.

Lemma save_state_ticks env w : ticks (save_state env w).2 = ticks w.
Proof. unfold save_state. run. by destruct (io_fault env (io_ops w)). Qed.

(** What [log_notification] writes: the entry reaches the file when the
    file operation succeeds, and the state file is not touched. *)
Lemma log_notification_files env message w :
  state_file (log_notification env message w).2 = state_file w
  ∧ notifications_file (log_notification env message w).2
    = match io_fault env (io_ops w) with
      | NoFault =>
          notifications_file w ++ [log_entry (clock env (ticks w)) message]
      | _ => notifications_file w
      end.
Proof. unfold log_notification. run. by destruct (io_fault env (io_ops w)). Qed.

(** ** The engagement detector *)

(** C7: for a post that [tweet_metrics] already holds, the body of the loop
    emits one notification when the likes grew by 10 or more, or the
    retweets by 5 or more, or the replies by 3 or more, and none otherwise;
    so growth by (10, 4, 2) notifies and growth by (9, 4, 2) does not.  The
    notification is one entry appended to [bot_state["notifications"]] and,
    unless the file operation fails, the same entry appended to the
    notifications file; when nothing is notified both are left as they were.
    Either way the stored counters become the fetched ones. *)
Theorem engagement_body_notifies_iff env TWITTER_USERNAME tweet prev flag w :
  tweet_metrics (bot_state w) !! pretty (t_id tweet) = Some prev →
  let metrics := public_metrics tweet in
  let like_diff := like_count metrics - like_count prev in
  let rt_diff := retweet_count metrics - retweet_count prev in
  let reply_diff := reply_count metrics - reply_count prev in
  let w' := (engagement_body env TWITTER_USERNAME tweet flag w).2 in
  let after := bot_state w' in
  (10 ≤ like_diff ∨ 5 ≤ rt_diff ∨ 3 ≤ reply_diff →
     ∃ message,
       notifications after
       = notifications (bot_state w)
         ++ [log_entry (clock env (ticks w)) message]
       ∧ notifications_file w'
         = notifications_file w
           ++ match io_fault env (io_ops w) with
              | NoFault => [log_entry (clock env (ticks w)) message]
              | _ => []
              end)
  ∧ (¬ (10 ≤ like_diff ∨ 5 ≤ rt_diff ∨ 3 ≤ reply_diff) →
     notifications after = notifications (bot_state w)
     ∧ notifications_file w' = notifications_file w)
  ∧ (like_diff = 10 → rt_diff = 4 → reply_diff = 2 →
     length (notifications after) = S (length (notifications (bot_state w)))
     ∧ (io_fault env (io_ops w) = NoFault →
        length (notifications_file w') = S (length (notifications_file w))))
  ∧ (like_diff = 9 → rt_diff = 4 → reply_diff = 2 →
     notifications after = notifications (bot_state w)
     ∧ notifications_file w' = notifications_file w)
  ∧ tweet_metrics after
    = <[pretty (t_id tweet) := metrics]> (tweet_metrics (bot_state w)).
Proof.
  intros Hprev metrics like_diff rt_diff reply_diff w' after.
  assert (Hyes : (10 <=? like_diff) || (5 <=? rt_diff) || (3 <=? reply_diff)
                 = true →
            ∃ message,
              notifications after
              = notifications (bot_state w)
                ++ [log_entry (clock env (ticks w)) message]
              ∧ notifications_file w'
                = notifications_file w
                  ++ match io_fault env (io_ops w) with
                     | NoFault => [log_entry (clock env (ticks w)) message]
                     | _ => []
                     end).
  { intros Htrig. eexists. unfold after, w', engagement_body. run.
    rewrite Hprev. run. fold metrics like_diff rt_diff reply_diff.
    rewrite Htrig. run.
    match goal with |- context [log_notification env ?msg w] =>
      pose proof (log_notification_state env msg w) as Hlog;
      pose proof (proj2 (log_notification_files env msg w)) as Hfile;
      destruct (log_notification env msg w) as [[] w1] end.
    run. rewrite Hlog, Hfile. split; [reflexivity|].
    destruct (io_fault env (io_ops w)); by rewrite ?app_nil_r. }
  assert (Hno : (10 <=? like_diff) || (5 <=? rt_diff) || (3 <=? reply_diff)
                = false →
            notifications after = notifications (bot_state w)
            ∧ notifications_file w' = notifications_file w).
  { intros Htrig. unfold after, w', engagement_body. run.
    rewrite Hprev. run. fold metrics like_diff rt_diff reply_diff.
    rewrite Htrig. done. }
  assert (Hstore : tweet_metrics after
            = <[pretty (t_id tweet) := metrics]> (tweet_metrics (bot_state w))).
  { unfold after, w', engagement_body. run.
    rewrite Hprev. run. fold metrics like_diff rt_diff reply_diff.
    destruct (_ || _ || _); run; [|done].
    match goal with |- context [log_notification env ?msg w] =>
      pose proof (log_notification_state env msg w) as Hlog;
      destruct (log_notification env msg w) as [[] w1] end.
    run. rewrite Hlog. reflexivity. }
  split; [|split; [|split; [|split]]].
  - intros Htrig. apply Hyes. lia.
  - intros Htrig. apply Hno. lia.
  - intros. destruct Hyes as (message & -> & ->); [lia|].
    split; [rewrite length_app; simpl; lia|].
    intros ->. rewrite length_app. simpl. lia.
  - intros. apply Hno. lia.
  - exact Hstore.
Qed.

Lemma engagement_body_notifies_iff_witness :
  let fired :=
    (engagement_body plain_env "me" (fetched_post 3 5 15) false
       tracking_world).2 in
  let quiet :=
    (engagement_body plain_env "me" (fetched_post 3 5 14) false
       tracking_world).2 in
  (length (notifications (bot_state fired)) = 1%nat
   ∧ length (notifications_file fired) = 1%nat)
  ∧ (notifications (bot_state quiet) = [] ∧ notifications_file quiet = [])
  ∧ tweet_metrics (bot_state quiet) !! "1700000000000000001"
    = Some (mk_metrics 3 5 14 0).
Proof.
  pose proof (engagement_body_notifies_iff plain_env "me"
                (fetched_post 3 5 15) (mk_metrics 1 1 5 0) false tracking_world
                eq_refl) as (_ & _ & Hfire & _ & _).
  pose proof (engagement_body_notifies_iff plain_env "me"
                (fetched_post 3 5 14) (mk_metrics 1 1 5 0) false tracking_world
                eq_refl) as (_ & _ & _ & Hquiet & Hstore).
  cbv zeta. split.
  { destruct (Hfire eq_refl eq_refl eq_refl) as [Hmem Hlog].
    split; [exact Hmem|exact (Hlog eq_refl)]. }
  split; [exact (Hquiet eq_refl eq_refl eq_refl)|].
  rewrite Hstore. reflexivity.
Defined.

(** ** The mention detector *)

Section Mentions.

Context (env : Env) (author_map : gmap Z User).

(** A mention that was seen before: nothing happens. *)
Lemma mention_body_seen tweet flag w :
  pretty (t_id tweet) ∈ processed_mentions (bot_state w) →
  mention_body env author_map tweet flag w = (flag, w).
Proof.
  intros Hin. unfold mention_body. run.
  rewrite bool_decide_eq_true_2 by done. done.
Qed.

(** A mention seen for the first time, created more than a day ago. *)
Lemma mention_body_old tweet flag w :
  pretty (t_id tweet) ∉ processed_mentions (bot_state w) →
  86400 * 1000000 < datetime_sub (clock env (ticks w)) (created_at tweet) →
  (mention_body env author_map tweet flag w).1 = true
  ∧ bot_state (mention_body env author_map tweet flag w).2
    = add_processed (pretty (t_id tweet)) (bot_state w).
Proof.
  intros Hin Hold. unfold mention_body. run.
  rewrite bool_decide_eq_false_2 by done. run.
  destruct (_ <? _) eqn:E; [done|lia].
Qed.

(** A mention seen for the first time, created within the last day. *)
Lemma mention_body_recent tweet flag w :
  pretty (t_id tweet) ∉ processed_mentions (bot_state w) →
  datetime_sub (clock env (ticks w)) (created_at tweet) ≤ 86400 * 1000000 →
  (mention_body env author_map tweet flag w).1 = true
  ∧ ∃ message,
      bot_state (mention_body env author_map tweet flag w).2
      = append_notification (log_entry (clock env (S (ticks w))) message)
          (add_processed (pretty (t_id tweet)) (bot_state w)).
Proof.
  intros Hin Hnew. unfold mention_body. run.
  rewrite bool_decide_eq_false_2 by done. run.
  destruct (_ <? _) eqn:E; [lia|]. run.
  match goal with |- context [log_notification env ?msg ?w1] =>
    pose proof (log_notification_state env msg w1) as Hlog;
    destruct (log_notification env msg w1) as [[] w2] end.
  run. split; [done|]. eexists. rewrite Hlog. reflexivity.
Qed.

(** The body only adds to [processed_mentions], and it adds the
    identifier of the mention. *)
Lemma mention_body_processed tweet flag w :
  processed_mentions (bot_state (mention_body env author_map tweet flag w).2)
  = {[ pretty (t_id tweet) ]} ∪ processed_mentions (bot_state w).
Proof.
  destruct (decide (pretty (t_id tweet) ∈ processed_mentions (bot_state w)))
    as [Hin|Hin].
  - rewrite mention_body_seen by done. simpl. set_solver.
  - destruct (Z.ltb_spec (86400 * 1000000)
                (datetime_sub (clock env (ticks w)) (created_at tweet)))
      as [Hold|Hnew].
    + by destruct (mention_body_old tweet flag w Hin Hold) as [_ ->].
    + by destruct (mention_body_recent tweet flag w Hin Hnew)
        as [_ [message ->]].
Qed.

Lemma mention_body_flag tweet flag w :
  (mention_body env author_map tweet flag w).1
  = flag || bool_decide (pretty (t_id tweet) ∉ processed_mentions (bot_state w)).
Proof.
  destruct (decide (pretty (t_id tweet) ∈ processed_mentions (bot_state w)))
    as [Hin|Hin].
  - rewrite mention_body_seen by done. simpl.
    rewrite bool_decide_eq_false_2 by tauto. by rewrite orb_false_r.
  - rewrite bool_decide_eq_true_2 by done. rewrite orb_true_r.
    destruct (Z.ltb_spec (86400 * 1000000)
                (datetime_sub (clock env (ticks w)) (created_at tweet)))
      as [Hold|Hnew].
    + by destruct (mention_body_old tweet flag w Hin Hold) as [-> _].
    + by destruct (mention_body_recent tweet flag w Hin Hnew) as [-> _].
Qed.

Lemma mention_ids_cons (t : Tweet) (l : list Tweet) :
  mention_ids (t :: l) = {[ pretty (t_id t) ]} ∪ mention_ids l.
Proof. reflexivity. Qed.

Lemma for_each_mentions_processed l flag w :
  processed_mentions (bot_state (for_each l (mention_body env author_map) flag w).2)
  = mention_ids l ∪ processed_mentions (bot_state w).
Proof.
  revert flag w. induction l as [|t l IH]; intros flag w.
  - unfold mention_ids. simpl. set_solver.
  - cbn [for_each]. unfold mbind, M_bind.
    pose proof (mention_body_processed t flag w) as Hstep.
    destruct (mention_body env author_map t flag w) as [flag' w'].
    simpl in Hstep. rewrite IH, Hstep, mention_ids_cons.
    generalize (mention_ids l). set_solver.
Qed.

Lemma for_each_mentions_flag l flag w :
  (for_each l (mention_body env author_map) flag w).1
  = flag || bool_decide (¬ mention_ids l ⊆ processed_mentions (bot_state w)).
Proof.
  revert flag w. induction l as [|t l IH]; intros flag w.
  - simpl. rewrite bool_decide_eq_false_2; [by rewrite orb_false_r|].
    unfold mention_ids. simpl. set_solver.
  - cbn [for_each]. unfold mbind, M_bind.
    pose proof (mention_body_processed t flag w) as Hstep.
    pose proof (mention_body_flag t flag w) as Hflag.
    destruct (mention_body env author_map t flag w) as [flag' w'].
    simpl in Hstep, Hflag.
    rewrite IH, Hstep, Hflag, mention_ids_cons. rewrite <- orb_assoc. f_equal.
    clear IH. generalize dependent (mention_ids l). intros ids.
    repeat case_bool_decide; simpl; try done; exfalso; set_solver.
Qed.

(** Mentions whose identifier [processed_mentions] holds when the loop
    starts are skipped: the loop runs as if they had not been fetched. *)
Lemma for_each_mentions_skips (seen : gset string) l flag w :
  seen ⊆ processed_mentions (bot_state w) →
  for_each l (mention_body env author_map) flag w
  = for_each (filter (λ t, pretty (t_id t) ∉ seen) l)
      (mention_body env author_map) flag w.
Proof.
  revert flag w. induction l as [|t l IH]; intros flag w Hseen; [done|].
  rewrite filter_cons. case_decide as Hnew.
  - cbn [for_each]. unfold mbind, M_bind.
    pose proof (mention_body_processed t flag w) as Hstep.
    destruct (mention_body env author_map t flag w) as [flag' w'].
    simpl in Hstep. apply IH. rewrite Hstep. set_solver.
  - cbn [for_each]. unfold mbind, M_bind.
    rewrite mention_body_seen by set_solver. by apply IH.
Qed.

End Mentions.

(** C9, as the specification states it, fails in its last part: the bot
    has processed a hundred mentions, sees mention 1100 for the first time
    and notifies; the eviction that ends the cycle drops 1100 from
    [processed_mentions], and the next cycle, fetching the same mention,
    notifies again.  Mention 1030, processed long before, is dropped too (it
    is not among the fifty added last either), and is notified when a later
    fetch brings it back. *)
Lemma mention_notified_twice :
  let client := client_with [fresh_mention] in
  let w1 := (check_mentions hourly_env client full_world).2 in
  let w2 := (check_mentions hourly_env client w1).2 in
  let w2' :=
    (check_mentions hourly_env
       (client_with [mention 1030 (mk_datetime 2024 5 1 11 0 0 0)]) w1).2 in
  ("1100" ∉ processed_mentions (bot_state full_world))
  ∧ length (notifications (bot_state w1)) = 1%nat
  ∧ ("1100" ∉ processed_mentions (bot_state w1))
  ∧ length (notifications (bot_state w2)) = 2%nat
  ∧ ("1030" ∈ processed_mentions (bot_state full_world))
  ∧ ("1030" ∉ processed_mentions (bot_state w1))
  ∧ length (notifications (bot_state w2')) = 2%nat.
Proof.
  repeat split; try (vm_compute; reflexivity);
    apply (bool_decide_unpack _); vm_compute; exact I.
Qed.

(** C9, amended: a fetched mention whose identifier is in
    [processed_mentions] is skipped, with no notification and no change of
    state.  Otherwise its identifier is added at once, and a notification is
    appended only if the mention was made within the last 24 hours: an older
    one is marked as processed without a notification.  In a cycle, the
    mentions whose identifier [processed_mentions] holds when the loop starts
    are passed over as if they had not been fetched; an identifier that the
    eviction has dropped is new again. *)
Theorem mention_body_dedup env author_map tweet flag w :
  let i := pretty (t_id tweet) in
  let st := bot_state w in
  let out := mention_body env author_map tweet flag w in
  let age := datetime_sub (clock env (ticks w)) (created_at tweet) in
  (i ∈ processed_mentions st → out = (flag, w))
  ∧ (i ∉ processed_mentions st →
       out.1 = true
       ∧ processed_mentions (bot_state out.2) = {[ i ]} ∪ processed_mentions st
       ∧ (86400 * 1000000 < age →
            notifications (bot_state out.2) = notifications st)
       ∧ (age ≤ 86400 * 1000000 →
            ∃ message,
              notifications (bot_state out.2)
              = notifications st
                ++ [log_entry (clock env (S (ticks w))) message]))
  ∧ (∀ l,
       for_each l (mention_body env author_map) flag w
       = for_each (filter (λ t, pretty (t_id t) ∉ processed_mentions st) l)
           (mention_body env author_map) flag w).
Proof.
  intros i st out age. split; [|split].
  - apply mention_body_seen.
  - intros Hnew. split; [|split; [|split]].
    + unfold out. rewrite mention_body_flag.
      rewrite bool_decide_eq_true_2 by done. apply orb_true_r.
    + apply mention_body_processed.
    + intros Hold.
      destruct (mention_body_old env author_map tweet flag w Hnew Hold)
        as [_ Hst].
      unfold out. by rewrite Hst.
    + intros Hrecent.
      destruct (mention_body_recent env author_map tweet flag w Hnew Hrecent)
        as [_ [message Hst]].
      exists message. unfold out. by rewrite Hst.
  - intros l. by apply for_each_mentions_skips.
Qed.

Lemma mention_body_dedup_witness :
  let w := (should_check hourly_env "mentions" 45 fresh_world).2 in
  (* 25 hours old and new to the bot: processed, not notified *)
  processed_mentions
    (bot_state (mention_body hourly_env ∅ stale_mention false w).2)
    = {[ "1100" ]} ∪ processed_mentions (bot_state w)
  ∧ notifications
      (bot_state (mention_body hourly_env ∅ stale_mention false w).2)
    = notifications (bot_state w)
  (* seen before: skipped *)
  ∧ mention_body hourly_env ∅ fresh_mention true
      (mention_body hourly_env ∅ stale_mention false w).2
    = (true, (mention_body hourly_env ∅ stale_mention false w).2).
Proof.
  intros w.
  destruct (mention_body_dedup hourly_env ∅ stale_mention false w)
    as (_ & Hnew & _).
  destruct Hnew as (_ & Hadd & Hquiet & _).
  { apply (bool_decide_unpack _). vm_compute. exact I. }
  split; [exact Hadd|]. split.
  { apply Hquiet. vm_compute. reflexivity. }
  destruct (mention_body_dedup hourly_env ∅ fresh_mention true
              (mention_body hourly_env ∅ stale_mention false w).2)
    as (Hseen & _).
  apply Hseen. apply (bool_decide_unpack _). vm_compute. exact I.
Defined.

(** ** A fetch that fails *)

(** Runs the next call of [safe_api_call] in the goal, keeping what it
    returns and that it leaves [bot_state] alone. *)
Ltac step_api w0 :=
  match goal with
  | |- context [safe_api_call ?f ?w1] =>
      let Hres := fresh "Hres" in
      let Hfr := fresh "Hframe" in
      pose proof (safe_api_call_result f w1 w0) as Hres;
      pose proof (safe_api_call_frame f w1) as Hfr;
      destruct (safe_api_call f w1) as [? ?];
      cbn [fst snd] in Hres, Hfr;
      destruct Hfr as (Hfr & _)
  end.

Lemma failed_fetch_state env TWITTER_USERNAME c client w :
  (should_check env (check_name c) (check_interval c) w).1 = true →
  fetch_failed c client w →
  bot_state (detector env TWITTER_USERNAME c client w).2
  = record_check (check_name c) (clock env (ticks w)) (bot_state w).
Proof.
  intros Hgate Hfail.
  pose proof (should_check_true env _ _ w Hgate) as Hst.
  destruct c; cbn [detector check_name check_interval fetch_failed] in *.
  - unfold check_new_followers. unfold mbind at 1, M_bind at 1.
    destruct (should_check env "followers" 60 w) as [ok w1].
    cbn [fst snd] in Hgate, Hst. subst ok. run.
    step_api w. rewrite Hres, Hfail. run. congruence.
  - unfold check_new_tweets. unfold mbind at 1, M_bind at 1.
    destruct (should_check env "tweets" 30 w) as [ok w1].
    cbn [fst snd] in Hgate, Hst. subst ok. run.
    step_api w. rewrite Hres, Hfail. run. congruence.
  - unfold check_mentions. unfold mbind at 1, M_bind at 1.
    destruct (should_check env "mentions" 45 w) as [ok w1].
    cbn [fst snd] in Hgate, Hst. subst ok. run.
    step_api w. rewrite Hres, Hfail. run. congruence.
  - unfold check_tweet_engagement. unfold mbind at 1, M_bind at 1.
    destruct (should_check env "engagement" 120 w) as [ok w1].
    cbn [fst snd] in Hgate, Hst. subst ok. run.
    destruct (last_tweet_id (bot_state w1)); [|done]. run.
    step_api w. rewrite Hres, Hfail. run. congruence.
Qed.

(** While the gate is shut a detector reads the clock and returns. *)
Lemma detector_too_early env TWITTER_USERNAME c client d w :
  last_check_time (bot_state w) !! check_name c = Some (TDatetime d) →
  datetime_sub (clock env (ticks w)) d < timedelta_minutes (check_interval c) →
  detector env TWITTER_USERNAME c client w = (tt, (datetime_now env w).2).
Proof.
  intros Hlast Hearly.
  pose proof (should_check_too_early env _ _ d w Hlast Hearly) as Hgate.
  destruct c; cbn [detector check_name check_interval] in *.
  - unfold check_new_followers. unfold mbind at 1, M_bind at 1.
    by rewrite Hgate.
  - unfold check_new_tweets. unfold mbind at 1, M_bind at 1.
    by rewrite Hgate.
  - unfold check_mentions. unfold mbind at 1, M_bind at 1.
    by rewrite Hgate.
  - unfold check_tweet_engagement. unfold mbind at 1, M_bind at 1.
    by rewrite Hgate.
Qed.

(** C10: when the gate of a detector opens and its fetch fails or finds
    nothing, [bot_state] is as before except that [last_check_time] of the
    check type holds the reading of the clock the gate took; hence, in any
    later world with that [bot_state], the detector does nothing but read
    the clock until the full interval has passed since that reading. *)
Theorem failed_fetch_only_advances_gate env TWITTER_USERNAME c client w :
  (should_check env (check_name c) (check_interval c) w).1 = true →
  fetch_failed c client w →
  let now := clock env (ticks w) in
  let after := bot_state (detector env TWITTER_USERNAME c client w).2 in
  after
  = set_last_check_time
      (<[check_name c := TDatetime now]> (last_check_time (bot_state w)))
      (bot_state w)
  ∧ ∀ client' w',
      bot_state w' = after →
      datetime_sub (clock env (ticks w')) now
        < timedelta_minutes (check_interval c) →
      detector env TWITTER_USERNAME c client' w' = (tt, (datetime_now env w').2).
Proof.
  intros Hgate Hfail now after.
  assert (after = record_check (check_name c) now (bot_state w)) as Hafter
    by (by apply failed_fetch_state).
  split; [exact Hafter|].
  intros client' w' Hstate Hearly.
  apply detector_too_early with (d := now); [|done].
  rewrite Hstate, Hafter. apply lookup_insert_eq.
Qed.

Lemma failed_fetch_only_advances_gate_witness :
  let after :=
    bot_state (detector plain_env "me" Followers throttled_client fresh_world).2 in
  after
  = set_last_check_time
      (<[ "followers" := TDatetime noon ]> (last_check_time initial_state))
      initial_state
  ∧ ∀ client' w',
      bot_state w' = after →
      datetime_sub (clock plain_env (ticks w')) noon < timedelta_minutes 60 →
      detector plain_env "me" Followers client' w'
      = (tt, (datetime_now plain_env w').2).
Proof.
  apply (failed_fetch_only_advances_gate plain_env "me" Followers
           throttled_client fresh_world); reflexivity.
Defined.

(** ** Persistence *)

Lemma dict_of_pairs_snoc {A} (kvs : list (string * A)) k v :
  dict_of_pairs (kvs ++ [(k, v)]) = <[k := v]> (dict_of_pairs kvs).
Proof. unfold dict_of_pairs. by rewrite foldl_snoc. Qed.

(** Without duplicate keys the order of the pairs does not matter. *)
Lemma dict_of_pairs_NoDup {A} (kvs : list (string * A)) :
  NoDup kvs.*1 → dict_of_pairs kvs = list_to_map kvs.
Proof.
  induction kvs as [|[k v] kvs IH] using rev_ind; [done|].
  rewrite fmap_app, NoDup_app. intros (Hnd & Hfresh & _).
  rewrite dict_of_pairs_snoc, IH by done.
  rewrite list_to_map_snoc; [done|].
  intros Hin. apply (Hfresh k Hin). simpl. set_solver.
Qed.

Lemma dec_str_list_enc (l : list string) :
  dec_str_list (JList (JStr <$> l)) = Some l.
Proof.
  unfold dec_str_list. induction l as [|s l IH]; [done|].
  rewrite fmap_cons. cbn [mapM]. rewrite IH. done.
Qed.

Lemma dec_opt_int_enc (o : option Z) : dec_opt_int (enc_opt_int o) = Some o.
Proof. by destruct o. Qed.

Lemma dec_metrics_enc (m : Metrics) : dec_metrics (enc_metrics m) = Some m.
Proof. by destruct m. Qed.

Lemma dec_time_enc (v : TimeVal) : dec_time (enc_time v) = Some (as_saved v).
Proof. by destruct v. Qed.

Lemma dec_dict_enc {A B} (enc : A → json) (dec : json → option B) (f : A → B)
    (m : gmap string A) :
  (∀ v, dec (enc v) = Some (f v)) →
  dec_dict dec (enc_dict enc m) = Some (f <$> m).
Proof.
  intros Hdec. unfold dec_dict, enc_dict.
  assert (Hall : ∀ l : list (string * A),
            mapM (λ kv : string * json, v ← dec kv.2; Some (kv.1, v))
              (prod_map id enc <$> l)
            = Some (prod_map id f <$> l)).
  { induction l as [|[k v] l IH]; [done|].
    rewrite fmap_cons. cbn [mapM]. rewrite IH. cbn. by rewrite Hdec. }
  rewrite Hall. csimpl. f_equal.
  rewrite dict_of_pairs_NoDup.
  - by rewrite list_to_map_fmap, list_to_map_to_list.
  - rewrite <- list_fmap_compose.
    rewrite (list_fmap_ext _ fst (map_to_list m) ) by (by intros ? []).
    apply NoDup_fst_map_to_list.
Qed.

Lemma set_list_to_set (o : SetOrder) (s : gset string) :
  list_to_set (set_list o s) = s.
Proof.
  apply set_eq. intros x. rewrite elem_of_list_to_set. apply set_list_elem.
Qed.

(** [save_state] never changes [bot_state]; what it leaves in the file
    depends on how far the write got. *)
Lemma save_state_file env w :
  state_file (save_state env w).2
  = match io_fault env (io_ops w) with
    | NoFault => Document (save_data (set_order env) (bot_state w))
    | OpenError _ => state_file w
    | WriteError _ => Truncated
    end.
Proof. unfold save_state. run. by destruct (io_fault env (io_ops w)). Qed.

(** Reading back what [save_data] wrote. *)
Lemma load_saved env o st w :
  state_file w = Document (save_data o st) →
  io_fault env (io_ops w) = NoFault →
  ∃ w', load_state env w = Loaded true w'
        ∧ bot_state w'
          = set_last_check_time (as_saved <$> last_check_time st) st.
Proof.
  intros Hfile Hio. unfold load_state. rewrite Hfile. run. rewrite Hio.
  unfold save_data. run. unfold dict_of_pairs. cbn [foldl fst snd].
  rewrite !lookup_insert.
  repeat (first [rewrite decide_True by done
                |rewrite decide_False by discriminate]).
  rewrite dec_str_list_enc.
  unfold update_state, update_key.
  rewrite !lookup_insert.
  repeat (first [rewrite decide_True by done
                |rewrite decide_False by discriminate]).
  rewrite dec_str_list_enc.
  rewrite (dec_dict_enc enc_metrics dec_metrics id) by apply dec_metrics_enc.
  rewrite (dec_dict_enc enc_time dec_time as_saved) by apply dec_time_enc.
  rewrite !dec_opt_int_enc. csimpl.
  eexists; split; [reflexivity|]. run.
  unfold set_last_check_time.
  by rewrite set_list_to_set, map_fmap_id.
Qed.

(** A truncated file holds no document: [json.load] raises, and
    [load_state] returns [False] without touching [bot_state]. *)
Lemma load_truncated env w :
  state_file w = Truncated →
  ∃ w', load_state env w = Loaded false w' ∧ bot_state w' = bot_state w.
Proof.
  intros Hfile. unfold load_state. rewrite Hfile. run.
  destruct (io_fault env (io_ops w)); eexists; split; reflexivity.
Qed.

(** C3, as the specification states it, fails: once a gate has opened,
    [last_check_time] holds a datetime; [json.dump] writes it with
    [default=str], and [load_state] brings back that string, not the
    datetime. *)
Lemma save_load_changes_last_check_time :
  ∃ w',
    load_state plain_env (save_state plain_env gated_world).2 = Loaded true w'
    ∧ last_check_time (bot_state gated_world) !! "followers"
      = Some (TDatetime noon)
    ∧ last_check_time (bot_state w') !! "followers"
      = Some (TStr "2024-05-01 12:00:00")
    ∧ bot_state w' ≠ bot_state gated_world.
Proof.
  destruct (load_saved plain_env elements_order (bot_state gated_world)
              (save_state plain_env gated_world).2)
    as (w' & Hload & Hstate); [reflexivity..|].
  exists w'. split; [exact Hload|]. split; [reflexivity|].
  assert (Hstr : last_check_time (bot_state w') !! "followers"
                 = Some (TStr "2024-05-01 12:00:00"))
    by (rewrite Hstate; vm_compute; reflexivity).
  split; [exact Hstr|].
  intros Heq. rewrite Heq in Hstr. vm_compute in Hstr. discriminate.
Qed.

(** C3, amended: when the write and the read succeed, loading what
    [save_state] saved gives back every field of [bot_state] as it was
    ([processed_mentions] rebuilt from its list exactly), except that the
    datetimes of [last_check_time] come back as the strings [str] makes of
    them; the values that were strings already come back unchanged. *)
Theorem save_load_roundtrip env w w' :
  io_fault env (io_ops w) = NoFault →
  state_file w' = state_file (save_state env w).2 →
  io_fault env (io_ops w') = NoFault →
  ∃ w'',
    load_state env w' = Loaded true w''
    ∧ user_id (bot_state w'') = user_id (bot_state w)
    ∧ last_follower_count (bot_state w'') = last_follower_count (bot_state w)
    ∧ last_tweet_id (bot_state w'') = last_tweet_id (bot_state w)
    ∧ processed_mentions (bot_state w'') = processed_mentions (bot_state w)
    ∧ tweet_metrics (bot_state w'') = tweet_metrics (bot_state w)
    ∧ notifications (bot_state w'') = notifications (bot_state w)
    ∧ last_check_time (bot_state w'')
      = as_saved <$> last_check_time (bot_state w).
Proof.
  intros Hwrite Hfile Hread.
  rewrite save_state_file, Hwrite in Hfile.
  destruct (load_saved env _ _ w' Hfile Hread) as (w'' & Hload & Hstate).
  exists w''. rewrite Hstate. by repeat split.
Qed.

Lemma save_load_roundtrip_witness :
  ∃ w'',
    load_state plain_env (save_state plain_env gated_world).2 = Loaded true w''
    ∧ user_id (bot_state w'') = user_id (bot_state gated_world)
    ∧ last_follower_count (bot_state w'')
      = last_follower_count (bot_state gated_world)
    ∧ last_tweet_id (bot_state w'') = last_tweet_id (bot_state gated_world)
    ∧ processed_mentions (bot_state w'')
      = processed_mentions (bot_state gated_world)
    ∧ tweet_metrics (bot_state w'') = tweet_metrics (bot_state gated_world)
    ∧ notifications (bot_state w'') = notifications (bot_state gated_world)
    ∧ last_check_time (bot_state w'')
      = as_saved <$> last_check_time (bot_state gated_world).
Proof.
  apply (save_load_roundtrip plain_env gated_world
           (save_state plain_env gated_world).2); reflexivity.
Defined.

(** C4, as the specification states it, fails: with an earlier copy in the
    file and a disk that is full, [save_state] leaves the file truncated,
    and the next [load_state] finds no state. *)
Lemma failed_save_loses_previous_copy :
  (∃ doc, state_file saved_world = Document doc)
  ∧ state_file (save_state full_disk_env saved_world).2 = Truncated
  ∧ ∃ w, load_state plain_env (save_state full_disk_env saved_world).2
         = Loaded false w.
Proof.
  split; [eexists; vm_compute; reflexivity|].
  split; [reflexivity|]. eexists. vm_compute. reflexivity.
Qed.

(** C4, amended: [save_state] always returns, with [bot_state] untouched; a
    failure is caught and reported on standard output.  The write is in
    place: when [open] fails the earlier copy is intact, and when the write
    fails after [open] the file is left truncated, so that a later
    [load_state] finds no state to load. *)
Theorem save_state_in_place env w :
  let w' := (save_state env w).2 in
  bot_state w' = bot_state w
  ∧ match io_fault env (io_ops w) with
    | NoFault =>
        state_file w' = Document (save_data (set_order env) (bot_state w))
        ∧ stdout w' = stdout w ++ ["State saved to bot_state.json"]
    | OpenError e =>
        state_file w' = state_file w
        ∧ stdout w' = stdout w ++ ["Error saving state: " +:+ e]
    | WriteError e =>
        state_file w' = Truncated
        ∧ stdout w' = stdout w ++ ["Error saving state: " +:+ e]
        ∧ ∀ env2 w2,
            state_file w2 = state_file w' →
            ∃ w3, load_state env2 w2 = Loaded false w3
                  ∧ bot_state w3 = bot_state w2
    end.
Proof.
  unfold save_state. run.
  destruct (io_fault env (io_ops w)); run; repeat split.
  intros env2 w2 Hfile. by apply load_truncated.
Qed.

(** ** Eviction of processed mentions *)

Lemma set_list_length (o : SetOrder) (s : gset string) :
  length (set_list o s) = size s.
Proof.
  unfold size, set_size. simpl. apply Permutation_length.
  apply NoDup_Permutation;
    [apply set_list_NoDup | apply NoDup_elements |].
  intros x. by rewrite set_list_elem, elem_of_elements.
Qed.

(** The eviction keeps fifty members of the set, whatever the order of
    iteration. *)
Lemma evict_mentions_size env st :
  (50 ≤ size (processed_mentions st))%nat →
  size (processed_mentions (evict_mentions env st)) = 50%nat.
Proof.
  intros Hsize. unfold evict_mentions, last_n. cbn.
  rewrite size_list_to_set.
  - rewrite length_drop, set_list_length. lia.
  - eapply sublist_NoDup; [apply set_list_NoDup|apply sublist_drop].
Qed.

Lemma evict_mentions_subseteq env st :
  processed_mentions (evict_mentions env st) ⊆ processed_mentions st.
Proof.
  unfold evict_mentions, last_n. cbn. intros x.
  rewrite elem_of_list_to_set. intros Hin.
  apply (set_list_elem (set_order env)).
  eapply subseteq_drop, Hin.
Qed.

(** [processed_mentions] after a cycle whose gate opened and whose fetch
    found mentions. *)
Lemma check_mentions_processed env client w t rest :
  (should_check env "mentions" 45 w).1 = true →
  fetched (safe_api_call (get_users_mentions client) w).1 = Some (t, rest) →
  let seen := processed_mentions (bot_state w) in
  let all := mention_ids (t :: rest) ∪ seen in
  processed_mentions (bot_state (check_mentions env client w).2)
  = if decide (mention_ids (t :: rest) ⊆ seen) then seen
    else if (100 <? size all)%nat
         then list_to_set (last_n 50 (set_list (set_order env) all))
         else all.
Proof.
  intros Hgate Hfetch seen all.
  pose proof (should_check_true env _ _ w Hgate) as Hst.
  unfold check_mentions. unfold mbind at 1, M_bind at 1.
  destruct (should_check env "mentions" 45 w) as [ok w1].
  cbn [fst snd] in Hgate, Hst. subst ok. run.
  step_api w. rewrite Hres, Hfetch. run.
  step_api w. clear Hres0.
  match goal with |- context [for_each ?l (mention_body env ?am) false ?w3] =>
    pose proof (for_each_mentions_processed env am l false w3) as Hproc;
    pose proof (for_each_mentions_flag env am l false w3) as Hflag;
    destruct (for_each l (mention_body env am) false w3) as [found w4]
  end.
  cbn [fst snd orb] in Hproc, Hflag.
  rewrite Hframe0, Hframe, Hst in Hproc, Hflag.
  cbn [record_check set_last_check_time processed_mentions] in Hproc, Hflag.
  fold seen in Hproc, Hflag. fold all in Hproc.
  subst found. case_bool_decide as Hsub.
  - rewrite decide_False by done. run. rewrite Hproc.
    destruct (100 <? size all)%nat; cbv beta iota;
      rewrite save_state_state; cbn [bot_state]; [|done].
    unfold evict_mentions. cbn [set_processed_mentions processed_mentions].
    by rewrite Hproc.
  - rewrite decide_True by done. run.
    rewrite Hproc. subst all. generalize dependent (mention_ids (t :: rest)).
    set_solver.
Qed.

(** When such a cycle met a new mention and ends with more than a hundred
    identifiers, exactly fifty are left, all of them from that hundred and
    more. *)
Lemma check_mentions_evicts_to_50 env client w t rest :
  (should_check env "mentions" 45 w).1 = true →
  fetched (safe_api_call (get_users_mentions client) w).1 = Some (t, rest) →
  let seen := processed_mentions (bot_state w) in
  let all := mention_ids (t :: rest) ∪ seen in
  ¬ mention_ids (t :: rest) ⊆ seen →
  (100 < size all)%nat →
  let after := processed_mentions (bot_state (check_mentions env client w).2) in
  size after = 50%nat ∧ after ⊆ all.
Proof.
  intros Hgate Hfetch seen all Hnew Hbig after. unfold after.
  rewrite (check_mentions_processed env client w t rest Hgate Hfetch).
  fold seen all. rewrite decide_False by done.
  apply Nat.ltb_lt in Hbig as Hltb. rewrite Hltb.
  split.
  - apply (evict_mentions_size env (set_processed_mentions all initial_state)).
    cbn. lia.
  - apply (evict_mentions_subseteq env
             (set_processed_mentions all initial_state)).
Qed.

(** The identifier added last is among the [n] most recent, whatever was
    added before it. *)
Lemma most_recent_newest (n : nat) (history : list string) (i : string) :
  (0 < n)%nat → i ∈ most_recent n (history ++ [i]).
Proof.
  intros Hn. unfold most_recent. rewrite elem_of_list_to_set.
  rewrite length_app. cbn [length].
  rewrite drop_app_le by lia. set_solver.
Qed.

(** C2 against the code.  A hundred mentions, 1000 to 1099, were processed
    in earlier cycles and the cycle fetches mention 1100, which is new.  The
    cycle itself adds 1100 to [processed_mentions], so 1100 is the
    identifier inserted last, in whatever order the hundred were inserted.
    The eviction keeps the last fifty of [list(processed_mentions)]: under
    the order of iteration [elements] that leaves exactly fifty identifiers,
    and 1100 is not one of them.  So what is left is not the fifty most
    recently inserted, for any history of the hundred. *)
Theorem eviction_drops_newest_mention :
  let before := processed_mentions (bot_state full_world) in
  let after :=
    processed_mentions
      (bot_state
         (check_mentions hourly_env (client_with [fresh_mention]) full_world).2)
  in
  size before = 100%nat
  ∧ ("1100" ∉ before)
  ∧ size after = 50%nat
  ∧ ("1100" ∉ after)
  ∧ ∀ history : list string,
      after ≠ most_recent 50 (history ++ ["1100"]).
Proof.
  intros before after.
  assert (Hgone : "1100" ∉ after).
  { apply (bool_decide_unpack _). by vm_compute. }
  split; [by vm_compute|].
  split; [apply (bool_decide_unpack _); by vm_compute|].
  split; [by vm_compute|].
  split; [exact Hgone|].
  intros history Heq. apply Hgone. rewrite Heq.
  apply most_recent_newest. lia.
Qed.

(** ** Eviction of tracked posts *)

Lemma dict_of_pairs_size {A} (kvs : list (string * A)) :
  (size (dict_of_pairs kvs) ≤ length kvs)%nat.
Proof.
  induction kvs as [|[k v] kvs IH] using rev_ind.
  - unfold dict_of_pairs. simpl. by rewrite map_size_empty.
  - rewrite dict_of_pairs_snoc, length_app. simpl.
    destruct (dict_of_pairs kvs !! k) eqn:Hk.
    + rewrite map_size_insert_Some by done. lia.
    + rewrite map_size_insert_None by done. lia.
Qed.

Lemma omap_length_le {A B} (f : A → option B) (l : list A) :
  (length (omap f l) ≤ length l)%nat.
Proof.
  induction l as [|x l IH]; [done|].
  cbn. destruct (f x); simpl; lia.
Qed.

(** The eviction leaves at most ten posts. *)
Lemma evict_metrics_size st :
  (size (tweet_metrics (evict_metrics st)) ≤ 10)%nat.
Proof.
  unfold evict_metrics. cbn [set_tweet_metrics tweet_metrics].
  etrans; [apply dict_of_pairs_size|].
  etrans; [apply omap_length_le|].
  rewrite length_take. lia.
Qed.

(** [sorted_ids] lists the keys, each once, in descending order of
    strings. *)
Lemma str_ge_total : Total str_ge.
Proof. intros a b. unfold str_ge. destruct (String.leb_total a b); auto. Qed.

Lemma sorted_ids_Sorted (m : gmap string Metrics) :
  Sorted str_ge (sorted_ids m).
Proof. apply Sorted_merge_sort, str_ge_total. Qed.

Lemma sorted_ids_Permutation (m : gmap string Metrics) :
  sorted_ids m ≡ₚ (map_to_list m).*1.
Proof. apply merge_sort_Permutation. Qed.

Lemma sorted_ids_elem (m : gmap string Metrics) k :
  k ∈ sorted_ids m ↔ is_Some (m !! k).
Proof.
  rewrite sorted_ids_Permutation, list_elem_of_fmap. split.
  - intros [[k' v] [-> Hin%elem_of_map_to_list]]. by exists v.
  - intros [v Hv]. exists (k, v). by rewrite elem_of_map_to_list.
Qed.

(** The dictionary comprehension keeps the posts whose identifier is among
    the first ten of [sorted_ids], with their counters. *)
Lemma evict_metrics_lookup st k :
  tweet_metrics (evict_metrics st) !! k
  = if decide (k ∈ take 10 (sorted_ids (tweet_metrics st)))
    then tweet_metrics st !! k else None.
Proof.
  unfold evict_metrics. cbn [set_tweet_metrics tweet_metrics].
  generalize (take 10 (sorted_ids (tweet_metrics st))). intros l.
  induction l as [|x l IH] using rev_ind.
  - unfold dict_of_pairs. cbn [foldl omap list_omap]. rewrite lookup_empty.
    by rewrite decide_False by set_solver.
  - rewrite omap_app. cbn [omap list_omap].
    destruct (tweet_metrics st !! x) as [v|] eqn:Hx;
      cbn [fmap option_fmap option_map].
    + rewrite dict_of_pairs_snoc, lookup_insert, IH.
      destruct (decide (x = k)) as [->|Hne].
      * rewrite decide_True by set_solver. done.
      * destruct (decide (k ∈ l)).
        -- by rewrite decide_True by set_solver.
        -- by rewrite decide_False by set_solver.
    + rewrite app_nil_r, IH.
      destruct (decide (k ∈ l)).
      * by rewrite decide_True by set_solver.
      * destruct (decide (k ∈ l ++ [x])) as [Hin|]; [|done].
        assert (k = x) as -> by set_solver. done.
Qed.

(** The body of the loop always sets [engagement_updates]. *)
Lemma engagement_body_flag env TWITTER_USERNAME tweet flag w :
  (engagement_body env TWITTER_USERNAME tweet flag w).1 = true.
Proof.
  unfold engagement_body. run.
  destruct (tweet_metrics (bot_state w) !! pretty (t_id tweet)); [|done].
  run. destruct (_ || _ || _); run; [|done].
  by destruct (log_notification _ _ _).
Qed.

Lemma for_each_engagement_flag env TWITTER_USERNAME tweet rest flag w :
  (for_each (tweet :: rest) (engagement_body env TWITTER_USERNAME) flag w).1
  = true.
Proof.
  revert tweet flag w. induction rest as [|t rest IH]; intros tweet flag w.
  - cbn [for_each]. unfold mbind, M_bind.
    pose proof (engagement_body_flag env TWITTER_USERNAME tweet flag w) as H.
    by destruct (engagement_body _ _ _ _ _).
  - cbn [for_each] in *. unfold mbind, M_bind in *.
    destruct (engagement_body env TWITTER_USERNAME tweet flag w) as [f w1].
    apply IH.
Qed.

(** After a run of the detector [tweet_metrics] holds at most ten posts,
    if it did before. *)
Lemma check_tweet_engagement_bounded env TWITTER_USERNAME client w :
  (size (tweet_metrics (bot_state w)) ≤ 10)%nat →
  (size (tweet_metrics
           (bot_state (check_tweet_engagement env TWITTER_USERNAME client w).2))
   ≤ 10)%nat.
Proof.
  intros Hsize. unfold check_tweet_engagement. unfold mbind at 1, M_bind at 1.
  pose proof (should_check_true env "engagement" 120 w) as Hopen.
  pose proof (should_check_false env "engagement" 120 w) as Hshut.
  destruct (should_check env "engagement" 120 w) as [[] w1];
    cbn [fst snd] in Hopen, Hshut.
  2:{ rewrite Hshut by done. done. }
  specialize (Hopen eq_refl). run.
  destruct (last_tweet_id (bot_state w1)).
  2:{ run. by rewrite Hopen. }
  run. step_api w. destruct (fetched o) as [[tweet rest]|].
  2:{ run. by rewrite Hframe, Hopen. }
  pose proof (for_each_engagement_flag env TWITTER_USERNAME tweet rest false w0)
    as Hflag.
  destruct (for_each (tweet :: rest) _ false w0) as [found w2].
  cbn [fst] in Hflag. subst found. run.
  destruct (10 <? size (tweet_metrics (bot_state w2)))%nat eqn:Hbig;
    cbv beta iota; rewrite save_state_state; cbn [bot_state].
  - apply evict_metrics_size.
  - apply Nat.ltb_ge in Hbig. lia.
Qed.

(** C8 against the code.  Ten posts are tracked, the oldest with an
    identifier of 18 digits, and a new post is fetched.  The eviction sorts
    the identifiers as strings, where "999999999999999999" is the largest:
    it keeps that post, the smallest number, and drops 1000000000000000001,
    a larger one. *)
Theorem eviction_sorts_ids_as_strings :
  let client := client_with_tweets [post 1000000000000000010] in
  let after :=
    tweet_metrics
      (bot_state
         (check_tweet_engagement plain_env "me" client ten_tracked_world).2) in
  size after = 10%nat
  ∧ is_Some (after !! "999999999999999999")
  ∧ after !! "1000000000000000001" = None
  ∧ 999999999999999999 < 1000000000000000001.
Proof.
  repeat split; try (vm_compute; reflexivity).
  eexists. vm_compute. reflexivity.
Qed.

(** * Further properties *)

(** ** The gated call executor, for any mix of failures *)

(** X1: both kinds of failure count on the same [retry_count].  When the
    first [k] attempts fail, in whatever way, and (if [k < 3]) the next one
    returns, the call sleeps once after each failure: [30 * i] seconds after
    the i-th attempt (counted from 1) if that was an ordinary error,
    [60 * 2^i] if it was a rate-limit error. *)
Theorem safe_api_call_waits {R} (func : nat → Outcome R) (k : nat) (r : R)
    (w : World) :
  (k ≤ max_retries)%nat →
  (∀ i, (i < k)%nat → ∀ r', func i ≠ Returns r') →
  ((k < max_retries)%nat → func k = Returns r) →
  (safe_api_call func w).1 = (if (k <? max_retries)%nat then Some r else None)
  ∧ slept (safe_api_call func w).2
    = slept w ++ ((λ i, wait_after i (func i)) <$> seq 0 k).
Proof.
  unfold max_retries, safe_api_call. intros Hk Hfail Hok.
  assert (H0 := Hfail 0%nat). assert (H1 := Hfail 1%nat).
  assert (H2 := Hfail 2%nat).
  destruct k as [|[|[|[|k]]]]; [| | | |lia];
    cbn [safe_api_loop Nat.sub max_retries fmap list_fmap seq Nat.ltb Nat.leb].
  - rewrite Hok by lia. by rewrite app_nil_r.
  - destruct (func 0%nat) eqn:E0; [by destruct (H0 ltac:(lia) r0)|..];
      run; rewrite Hok by lia; done.
  - destruct (func 0%nat) eqn:E0; [by destruct (H0 ltac:(lia) r0)|..];
      run;
      (destruct (func 1%nat) eqn:E1; [by destruct (H1 ltac:(lia) r0)|..]);
      run; rewrite Hok by lia; run; by rewrite <- app_assoc.
  - destruct (func 0%nat) eqn:E0; [by destruct (H0 ltac:(lia) r0)|..];
      run;
      (destruct (func 1%nat) eqn:E1; [by destruct (H1 ltac:(lia) r0)|..]);
      run;
      (destruct (func 2%nat) eqn:E2; [by destruct (H2 ltac:(lia) r0)|..]);
      run; by rewrite <- !app_assoc.
Qed.

Lemma safe_api_call_waits_witness :
  (safe_api_call flaky_then_lucky fresh_world).1 = Some 7
  ∧ slept (safe_api_call flaky_then_lucky fresh_world).2
    = slept fresh_world ++ [30; 240].
Proof.
  apply (safe_api_call_waits flaky_then_lucky 2 7 fresh_world).
  - unfold max_retries. lia.
  - intros [|[|i]] Hi r'; [discriminate | discriminate | lia].
  - reflexivity.
Defined.

(** X2: [safe_api_call] invokes the callable at most three times.  It
    returns [None] exactly when none of the three invocations returns;
    otherwise it returns what the first returning invocation returned, after
    one sleep for each failure before it. *)
Theorem safe_api_call_first_success {R} (func : nat → Outcome R) (w : World) :
  let out := safe_api_call func w in
  (out.1 = None ↔ ∀ i, (i < 3)%nat → ∀ r, func i ≠ Returns r)
  ∧ (∀ r, out.1 = Some r →
       ∃ i, (i < 3)%nat ∧ func i = Returns r
            ∧ (∀ j, (j < i)%nat → ∀ r', func j ≠ Returns r')
            ∧ length (slept out.2) = (length (slept w) + i)%nat).
Proof.
  unfold safe_api_call, max_retries. cbn [safe_api_loop Nat.sub max_retries].
  destruct (func 0%nat) eqn:E0; run.
  { split.
    - split; [done|]. intros H. by destruct (H 0%nat ltac:(lia) r).
    - intros r' [= <-]. exists 0%nat. repeat split; [lia|done|lia|lia]. }
  all: destruct (func 1%nat) eqn:E1; run.
  1,4: split;
    [ split; [done|]; intros H; by destruct (H 1%nat ltac:(lia) r)
    | intros r' [= <-]; exists 1%nat; repeat split; [lia|done| |];
      [ intros [|j] Hj r'; [congruence|lia]
      | rewrite length_app; simpl; lia ] ].
  all: destruct (func 2%nat) eqn:E2; run.
  1,4,7,10: split;
    [ split; [done|]; intros H; by destruct (H 2%nat ltac:(lia) r)
    | intros r' [= <-]; exists 2%nat; repeat split; [lia|done| |];
      [ intros [|[|j]] Hj r'; [congruence|congruence|lia]
      | rewrite !length_app; simpl; lia ] ].
  all: split; [|done]; split; [|done];
    intros _ [|[|[|i]]] Hi r; [congruence..|lia].
Qed.

(** The pauses of one call: at most three, each between 30 and 480
    seconds, 840 seconds at most in all. *)
Lemma safe_api_call_pauses {R} (func : nat → Outcome R) (w : World) :
  ∃ waits,
    slept (safe_api_call func w).2 = slept w ++ waits
    ∧ (length waits ≤ 3)%nat
    ∧ Forall (λ x, 30 ≤ x ≤ 480) waits
    ∧ total waits ≤ 840.
Proof.
  unfold safe_api_call, max_retries.
  cbn [safe_api_loop Nat.sub max_retries].
  destruct (func 0%nat) eqn:E0; run.
  { exists []. rewrite app_nil_r. repeat split; [simpl; lia|done|simpl; lia]. }
  all: destruct (func 1%nat) eqn:E1; run.
  1,4: eexists [_]; repeat split;
    [simpl; lia | repeat constructor; lia | cbn; lia].
  all: destruct (func 2%nat) eqn:E2; run.
  1,4,7,10: eexists [_; _]; rewrite <- app_assoc; repeat split;
    [simpl; lia | repeat constructor; lia | cbn; lia].
  all: eexists [_; _; _]; rewrite <- !app_assoc; repeat split;
    [simpl; lia | repeat constructor; lia | cbn; lia].
Qed.

(** X3: whatever the callable does, the call sleeps at most three times, at
    least 30 and at most 480 seconds each time and at most 840 seconds in
    all, and leaves [bot_state] and both files as they were. *)
Theorem safe_api_call_bounded {R} (func : nat → Outcome R) (w : World) :
  let w' := (safe_api_call func w).2 in
  (∃ waits,
     slept w' = slept w ++ waits
     ∧ (length waits ≤ 3)%nat
     ∧ Forall (λ x, 30 ≤ x ≤ 480) waits
     ∧ total waits ≤ 840)
  ∧ bot_state w' = bot_state w
  ∧ state_file w' = state_file w
  ∧ notifications_file w' = notifications_file w.
Proof.
  intros w'. split; [apply safe_api_call_pauses|].
  destruct (safe_api_call_frame func w) as (? & ? & ? & _). done.
Qed.

(** ** The check scheduler, beyond the first call *)

(** X4: with a datetime stored for the check type, the gate opens exactly
    when at least the interval has passed since then; when it opens it
    records the reading of the clock, and when it stays shut it leaves
    [bot_state] as it was. *)
Theorem should_check_threshold env check_type m d w :
  last_check_time (bot_state w) !! check_type = Some (TDatetime d) →
  let now := clock env (ticks w) in
  let out := should_check env check_type m w in
  (out.1 = true ↔ timedelta_minutes m ≤ datetime_sub now d)
  ∧ (out.1 = true →
       bot_state out.2
       = set_last_check_time
           (<[check_type := TDatetime now]> (last_check_time (bot_state w)))
           (bot_state w))
  ∧ (out.1 = false → bot_state out.2 = bot_state w).
Proof.
  intros Hlast now out. subst now out.
  unfold should_check, datetime_sub. run. rewrite Hlast.
  destruct (_ <=? _) eqn:E; run.
  - split; [split; [lia|done]|]. split; [done|discriminate].
  - split; [split; [discriminate|lia]|]. split; [discriminate|done].
Qed.

Lemma should_check_threshold_witness :
  let out := should_check plain_env "followers" 60 gated_world in
  (out.1 = true
   ↔ timedelta_minutes 60
     ≤ datetime_sub (clock plain_env (ticks gated_world)) noon)
  ∧ (out.1 = true →
       bot_state out.2
       = set_last_check_time
           (<[ "followers" := TDatetime (clock plain_env (ticks gated_world)) ]>
              (last_check_time (bot_state gated_world)))
           (bot_state gated_world))
  ∧ (out.1 = false → bot_state out.2 = bot_state gated_world).
Proof.
  apply (should_check_threshold plain_env "followers" 60 noon gated_world).
  reflexivity.
Defined.

(** X5: the gate of one check type does not touch the others.  A call
    reads the clock once and changes nothing but [last_check_time] at its
    own check type: the other timestamps, the other fields of [bot_state],
    the files, the output and [slept] are as before. *)
Theorem should_check_frame env check_type m w :
  let w' := (should_check env check_type m w).2 in
  (∀ other, other ≠ check_type →
     last_check_time (bot_state w') !! other
     = last_check_time (bot_state w) !! other)
  ∧ user_id (bot_state w') = user_id (bot_state w)
  ∧ last_follower_count (bot_state w') = last_follower_count (bot_state w)
  ∧ last_tweet_id (bot_state w') = last_tweet_id (bot_state w)
  ∧ processed_mentions (bot_state w') = processed_mentions (bot_state w)
  ∧ tweet_metrics (bot_state w') = tweet_metrics (bot_state w)
  ∧ notifications (bot_state w') = notifications (bot_state w)
  ∧ state_file w' = state_file w
  ∧ notifications_file w' = notifications_file w
  ∧ stdout w' = stdout w
  ∧ slept w' = slept w
  ∧ ticks w' = S (ticks w)
  ∧ io_ops w' = io_ops w.
Proof.
  unfold should_check. run.
  destruct (last_check_time (bot_state w) !! check_type); run.
  - destruct (_ <=? _); run; repeat split; try done.
    intros other Hne. by rewrite lookup_insert_ne.
  - repeat split; try done.
    intros other Hne. by rewrite lookup_insert_ne.
Qed.

(** X6: a restart does not reset the gates.  In a world whose timestamps
    went through the state file (datetimes became strings), the gate decides
    as it does on the datetimes themselves, as long as the parser reads back
    what [str] printed. *)
Theorem should_check_after_reload env check_type m w w' :
  last_check_time (bot_state w')
  = as_saved <$> last_check_time (bot_state w) →
  ticks w' = ticks w →
  (∀ d, last_check_time (bot_state w) !! check_type = Some (TDatetime d) →
        fromisoformat env (datetime_str d) = Some d) →
  (should_check env check_type m w').1 = (should_check env check_type m w).1.
Proof.
  intros Hsaved Hticks Hparse. unfold should_check. run.
  rewrite Hsaved, lookup_fmap, Hticks.
  destruct (last_check_time (bot_state w) !! check_type) as [[d|s]|] eqn:E;
    cbn [fmap option_fmap option_map as_saved]; [| |done].
  - rewrite (Hparse d eq_refl). run. by destruct (_ <=? _).
  - run. by destruct (_ <=? _).
Qed.

Lemma should_check_after_reload_witness :
  (should_check plain_env "followers" 60 reloaded_world).1
  = (should_check plain_env "followers" 60 gated_world).1.
Proof.
  apply (should_check_after_reload plain_env "followers" 60 gated_world
           reloaded_world); [reflexivity | reflexivity |].
  intros d Hd. vm_compute in Hd. injection Hd as <-. reflexivity.
Defined.

(** ** The state store at its edges *)

Lemma dict_of_pairs_lookup_None {A} (kvs : list (string * A)) k :
  dict_of_pairs kvs !! k = None ↔ k ∉ kvs.*1.
Proof.
  induction kvs as [|[k' v] kvs IH] using rev_ind.
  - unfold dict_of_pairs. simpl. rewrite lookup_empty. set_solver.
  - rewrite dict_of_pairs_snoc, fmap_app, lookup_insert. simpl.
    rewrite not_elem_of_app. case_decide as Hk.
    + subst. split; [done|]. intros [_ Hno]. set_solver.
    + rewrite IH. set_solver.
Qed.

(** X7: [load_state] changes something only when it succeeds.  Whenever
    it returns [False] (no file, a file that cannot be read or parsed, a
    document that is not an object or lacks ["processed_mentions"]),
    [bot_state] and both files are as they were. *)
Theorem load_state_false_unchanged env w w' :
  load_state env w = Loaded false w' →
  bot_state w' = bot_state w
  ∧ state_file w' = state_file w
  ∧ notifications_file w' = notifications_file w
  ∧ slept w' = slept w.
Proof.
  unfold load_state. destruct (state_file w) as [|doc|] eqn:Hfile; run.
  - by intros [= <-].
  - destruct (io_fault env (io_ops w)); [|by intros [= <-]..].
    destruct doc as [| | | |kvs]; try by intros [= <-].
    destruct (dict_of_pairs kvs !! "processed_mentions") as [j|];
      [|by intros [= <-]].
    destruct (dec_str_list j); [|done].
    by destruct (update_state _ _ _).
  - destruct (io_fault env (io_ops w)); by intros [= <-].
Qed.

Lemma load_state_false_unchanged_witness :
  load_state plain_env legacy_world = Loaded false legacy_world_rejected
  ∧ bot_state legacy_world_rejected = bot_state legacy_world
  ∧ state_file legacy_world_rejected = state_file legacy_world
  ∧ notifications_file legacy_world_rejected = notifications_file legacy_world
  ∧ slept legacy_world_rejected = slept legacy_world.
Proof.
  split; [reflexivity|].
  apply (load_state_false_unchanged plain_env legacy_world
           legacy_world_rejected).
  reflexivity.
Defined.

(** X8: a document without the key ["processed_mentions"] is not loaded
    at all: the [KeyError] is caught, [load_state] reports it and returns
    [False], and the keys that the document does hold are not taken over. *)
Theorem load_state_missing_mentions env w kvs :
  state_file w = Document (JObj kvs) →
  io_fault env (io_ops w) = NoFault →
  "processed_mentions" ∉ kvs.*1 →
  ∃ w', load_state env w = Loaded false w'
        ∧ bot_state w' = bot_state w
        ∧ stdout w'
          = stdout w ++ ["Error loading state: 'processed_mentions'"].
Proof.
  intros Hfile Hio Hkey. unfold load_state. rewrite Hfile. run. rewrite Hio.
  apply dict_of_pairs_lookup_None in Hkey. rewrite Hkey.
  eexists. split; [reflexivity|]. done.
Qed.

Lemma load_state_missing_mentions_witness :
  ∃ w', load_state plain_env legacy_world = Loaded false w'
        ∧ bot_state w' = bot_state legacy_world
        ∧ stdout w'
          = stdout legacy_world
            ++ ["Error loading state: 'processed_mentions'"].
Proof.
  apply (load_state_missing_mentions plain_env legacy_world
           [("user_id", JInt 7); ("last_follower_count", JInt 3)]);
    [reflexivity | reflexivity |].
  apply (bool_decide_unpack _). vm_compute. exact I.
Defined.

(** X9: [load_state] updates, it does not replace.  When it succeeds on a
    document that lacks some of the other keys, the fields of those keys
    keep the values they had in memory; [processed_mentions] is always taken
    from the file. *)
Theorem load_state_keeps_missing_keys env w w' kvs :
  state_file w = Document (JObj kvs) →
  load_state env w = Loaded true w' →
  ("user_id" ∉ kvs.*1 → user_id (bot_state w') = user_id (bot_state w))
  ∧ ("last_follower_count" ∉ kvs.*1 →
       last_follower_count (bot_state w') = last_follower_count (bot_state w))
  ∧ ("last_tweet_id" ∉ kvs.*1 →
       last_tweet_id (bot_state w') = last_tweet_id (bot_state w))
  ∧ ("tweet_metrics" ∉ kvs.*1 →
       tweet_metrics (bot_state w') = tweet_metrics (bot_state w))
  ∧ ("notifications" ∉ kvs.*1 →
       notifications (bot_state w') = notifications (bot_state w))
  ∧ ("last_check_time" ∉ kvs.*1 →
       last_check_time (bot_state w') = last_check_time (bot_state w))
  ∧ ∃ l, dict_of_pairs kvs !! "processed_mentions" = Some (JList (JStr <$> l))
         ∧ processed_mentions (bot_state w') = list_to_set l.
Proof.
  intros Hfile. unfold load_state. rewrite Hfile. run.
  destruct (io_fault env (io_ops w)); [|done..].
  destruct (dict_of_pairs kvs !! "processed_mentions") as [j|] eqn:Hj; [|done].
  destruct (dec_str_list j) as [l|] eqn:Hl; [|done].
  destruct (update_state _ _ _) as [st|] eqn:Hst; [|done].
  intros [= <-]. run.
  unfold update_state, update_key in Hst.
  repeat split.
  1-6: intros Hkey%dict_of_pairs_lookup_None; rewrite Hkey in Hst;
    simplify_option_eq; done.
  exists l. split.
  - f_equal. destruct j as [| | |js|]; try done. f_equal.
    unfold dec_str_list in Hl. clear -Hl. revert l Hl.
    induction js as [|j js IH]; intros l Hl.
    + by injection Hl as <-.
    + cbn [mapM] in Hl. destruct (mapM dec_str js) as [l'|] eqn:E;
        [|by destruct (dec_str j)].
      destruct j; try done. cbn in Hl. injection Hl as <-.
      rewrite fmap_cons. f_equal. by apply IH.
  - simplify_option_eq. done.
Qed.

Lemma load_state_keeps_missing_keys_witness :
  ∃ w', load_state plain_env partial_world = Loaded true w'
        ∧ tweet_metrics (bot_state w') = tweet_metrics (bot_state partial_world)
        ∧ last_tweet_id (bot_state w') = last_tweet_id (bot_state partial_world)
        ∧ user_id (bot_state w') = Some 7.
Proof.
  eexists. split; [vm_compute; reflexivity|].
  destruct (load_state_keeps_missing_keys plain_env partial_world _
              [("user_id", JInt 7);
               ("processed_mentions", JList [JStr "5"; JStr "6"])]
              eq_refl eq_refl)
    as (_ & _ & Htweet & Hmetrics & _).
  split; [|split; [|reflexivity]].
  - apply Hmetrics. apply (bool_decide_unpack _). vm_compute. exact I.
  - apply Htweet. apply (bool_decide_unpack _). vm_compute. exact I.
Defined.

(** X10: once a state has been through the file the round trip is exact.
    If every value of [last_check_time] is a string (as after [load_state]),
    and the write and the read succeed, saving and loading gives back
    [bot_state] itself. *)
Theorem save_load_exact env w w' :
  (∀ k v, last_check_time (bot_state w) !! k = Some v → ∃ s, v = TStr s) →
  io_fault env (io_ops w) = NoFault →
  state_file w' = state_file (save_state env w).2 →
  io_fault env (io_ops w') = NoFault →
  ∃ w'', load_state env w' = Loaded true w'' ∧ bot_state w'' = bot_state w.
Proof.
  intros Hstr Hwrite Hfile Hread.
  rewrite save_state_file, Hwrite in Hfile.
  destruct (load_saved env _ _ w' Hfile Hread) as (w'' & Hload & Hstate).
  exists w''. split; [exact Hload|]. rewrite Hstate.
  assert (as_saved <$> last_check_time (bot_state w)
          = last_check_time (bot_state w)) as ->.
  { apply map_eq. intros k. rewrite lookup_fmap.
    destruct (last_check_time (bot_state w) !! k) as [v|] eqn:Hk; [|done].
    destruct (Hstr k v Hk) as [s ->]. done. }
  by destruct (bot_state w).
Qed.

Lemma save_load_exact_witness :
  ∃ w'', load_state plain_env (save_state plain_env corrupted_world).2
         = Loaded true w''
         ∧ bot_state w'' = bot_state corrupted_world.
Proof.
  apply (save_load_exact plain_env corrupted_world
           (save_state plain_env corrupted_world).2);
    [|reflexivity..].
  intros k v Hk.
  destruct (decide (k = "followers")) as [->|Hne].
  - exists "garbage". vm_compute in Hk. by injection Hk as <-.
  - cbn in Hk. rewrite lookup_singleton_ne in Hk by done. discriminate.
Defined.

(** ** What every detector keeps *)

Lemma keeps_ret (R : relation World) `{!Reflexive R} {A} (a : A) :
  keeps R (mret a : M A).
Proof. intros w. reflexivity. Qed.

Lemma keeps_pass (R : relation World) `{!Reflexive R} : keeps R pass.
Proof. intros w. reflexivity. Qed.

Lemma keeps_bind (R : relation World) `{!Transitive R} {A B}
    (c : M A) (k : A → M B) :
  keeps R c → (∀ a, keeps R (k a)) → keeps R (c ≫= k).
Proof.
  unfold keeps. intros Hc Hk w. unfold mbind, M_bind.
  specialize (Hc w). destruct (c w) as [a w1]. simpl in Hc.
  etrans; [exact Hc|apply Hk].
Qed.

Lemma keeps_for_each (R : relation World) `{!PreOrder R} {A}
    (l : list A) (body : A → bool → M bool) flag :
  (∀ x f, keeps R (body x f)) → keeps R (for_each l body flag).
Proof.
  intros Hbody. revert flag. induction l as [|x l IH]; intros flag.
  - apply keeps_ret, _.
  - cbn [for_each]. apply keeps_bind; [apply _|apply Hbody|apply IH].
Qed.

(** Relations that only look at [bot_state] and the two files are kept by
    whatever leaves those alone. *)
Lemma keeps_quiet (R : relation World) {A} (c : M A) :
  (∀ w w', bot_state w' = bot_state w →
           state_file w' = state_file w →
           notifications_file w' = notifications_file w → R w w') →
  (∀ w, bot_state (c w).2 = bot_state w
        ∧ state_file (c w).2 = state_file w
        ∧ notifications_file (c w).2 = notifications_file w) →
  keeps R c.
Proof. intros HR Hc w. destruct (Hc w) as (? & ? & ?). by apply HR. Qed.

Lemma print_quiet line w :
  bot_state (print line w).2 = bot_state w
  ∧ state_file (print line w).2 = state_file w
  ∧ notifications_file (print line w).2 = notifications_file w.
Proof. done. Qed.

Lemma safe_api_call_quiet {R} (func : nat → Outcome R) w :
  bot_state (safe_api_call func w).2 = bot_state w
  ∧ state_file (safe_api_call func w).2 = state_file w
  ∧ notifications_file (safe_api_call func w).2 = notifications_file w.
Proof. destruct (safe_api_call_frame func w) as (? & ? & ? & _). done. Qed.

Lemma save_state_notifications_file env w :
  notifications_file (save_state env w).2 = notifications_file w.
Proof. unfold save_state. run. by destruct (io_fault env (io_ops w)). Qed.

#[local] Instance slice_frame_preorder c : PreOrder (slice_frame c).
Proof.
  split.
  - intros w. unfold slice_frame. naive_solver.
  - intros w1 w2 w3 (Hu1 & Hf1 & Hi1 & Hp1 & Hm1 & Ht1)
      (Hu2 & Hf2 & Hi2 & Hp2 & Hm2 & Ht2).
    unfold slice_frame. split; [congruence|].
    split; [intros Hc; rewrite Hf2, Hf1; done|].
    split; [intros Hc; rewrite Hi2, Hi1; done|].
    split; [intros Hc; rewrite Hp2, Hp1; done|].
    split; [intros Hc; rewrite Hm2, Hm1; done|].
    intros other Hne. by rewrite Ht2, Ht1.
Qed.

#[local] Instance appends_preorder : PreOrder appends.
Proof.
  split.
  - intros w. exists [], []. by rewrite !app_nil_r.
  - intros w1 w2 w3 (n1 & f1 & Hn1 & Hf1 & Hs1) (n2 & f2 & Hn2 & Hf2 & Hs2).
    exists (n1 ++ n2), (f1 ++ f2).
    rewrite Hn2, Hn1, Hf2, Hf1, !app_assoc.
    repeat split. by apply sublist_app.
Qed.

#[local] Instance mirrors_preorder : PreOrder mirrors.
Proof.
  split.
  - intros w. exists []. by rewrite !app_nil_r.
  - intros w1 w2 w3 (n1 & Hn1 & Hf1) (n2 & Hn2 & Hf2).
    exists (n1 ++ n2). by rewrite Hn2, Hn1, Hf2, Hf1, !app_assoc.
Qed.

Lemma keeps_get_state (R : relation World) `{!Reflexive R} : keeps R get_state.
Proof. intros w. reflexivity. Qed.

(** Takes a detector apart into the actions it is made of. *)
Ltac keeps_steps :=
  repeat first
    [ apply keeps_pass; apply _
    | apply keeps_ret; apply _
    | apply keeps_get_state; apply _
    | assumption
    | match goal with H : ∀ _, keeps _ _ |- _ => apply H end
    | match goal with H : ∀ _ _, keeps _ _ |- _ => apply H end
    | apply keeps_bind; [apply _| |intros ?]
    | apply keeps_for_each; [apply _|intros ? ?]
    | match goal with
      | |- keeps _ (if ?b then _ else _) => destruct b
      | |- keeps _ (match ?x with _ => _ end) => destruct x
      | |- keeps _ (let _ := _ in _) => cbv zeta
      end ].

(** A relation that every action of a detector keeps is kept by the
    detector. *)
Lemma detector_keeps (R : relation World) `{!PreOrder R} env TWITTER_USERNAME
    c client :
  keeps R (should_check env (check_name c) (check_interval c)) →
  keeps R (datetime_now env) →
  (∀ line, keeps R (print line)) →
  (∀ A (func : nat → Outcome A), keeps R (safe_api_call func)) →
  (∀ message, keeps R (log_notification env message)) →
  keeps R (save_state env) →
  match c with
  | Followers => ∀ n, keeps R (modify_state (set_last_follower_count n))
  | Tweets => ∀ i, keeps R (modify_state (set_last_tweet_id i))
  | Mentions =>
      (∀ i, keeps R (modify_state (add_processed i)))
      ∧ keeps R (modify_state (evict_mentions env))
  | Engagement =>
      (∀ i m, keeps R (modify_state (store_metrics i m)))
      ∧ keeps R (modify_state evict_metrics)
  end →
  keeps R (detector env TWITTER_USERNAME c client).
Proof.
  intros Hgate Hnow Hprint Hapi Hlog Hsave Hmod.
  destruct c; cbn [detector check_name check_interval] in *.
  - unfold check_new_followers. keeps_steps.
  - unfold check_new_tweets, fetched. keeps_steps.
  - destruct Hmod as [Hadd Hevict].
    unfold check_mentions, fetched, mention_body. keeps_steps.
  - destruct Hmod as [Hstore Hevict].
    unfold check_tweet_engagement, fetched, engagement_body. keeps_steps.
Qed.

Lemma should_check_state env check_type m w :
  bot_state (should_check env check_type m w).2 = bot_state w
  ∨ bot_state (should_check env check_type m w).2
    = record_check check_type (clock env (ticks w)) (bot_state w).
Proof.
  destruct (should_check env check_type m w).1 eqn:E.
  - right. by apply should_check_true.
  - left. by rewrite should_check_false.
Qed.

Lemma should_check_files env check_type m w :
  state_file (should_check env check_type m w).2 = state_file w
  ∧ notifications_file (should_check env check_type m w).2
    = notifications_file w.
Proof.
  unfold should_check. run.
  destruct (last_check_time (bot_state w) !! check_type); [|done].
  run. by destruct (_ <=? _).
Qed.

Lemma detector_slice_frame env TWITTER_USERNAME c client :
  keeps (slice_frame c) (detector env TWITTER_USERNAME c client).
Proof.
  apply (detector_keeps (slice_frame c)).
  - intros w0. unfold slice_frame.
    destruct (should_check_state env (check_name c) (check_interval c) w0)
      as [-> | ->]; cbn; repeat split; try done.
    intros other Hne. by rewrite lookup_insert_ne.
  - intros w0. unfold slice_frame. by repeat split.
  - intros line w0. unfold slice_frame. by repeat split.
  - intros A func w0. unfold slice_frame.
    destruct (safe_api_call_quiet func w0) as (-> & _). by repeat split.
  - intros message w0. unfold slice_frame.
    rewrite log_notification_state. by repeat split.
  - intros w0. unfold slice_frame. rewrite save_state_state. by repeat split.
  - destruct c; [|..|split|split]; intros; intros w0; unfold slice_frame;
      cbn; by repeat split.
Qed.

(** X11: each detector changes its own slice of [bot_state] only.  None
    changes [user_id] or the timestamp of another check type; the follower
    detector leaves the last post, the processed mentions and the tracked
    counters alone, and likewise for the other three. *)
Theorem detector_slice env TWITTER_USERNAME c client w :
  let st := bot_state w in
  let st' := bot_state (detector env TWITTER_USERNAME c client w).2 in
  user_id st' = user_id st
  ∧ (c ≠ Followers → last_follower_count st' = last_follower_count st)
  ∧ (c ≠ Tweets → last_tweet_id st' = last_tweet_id st)
  ∧ (c ≠ Mentions → processed_mentions st' = processed_mentions st)
  ∧ (c ≠ Engagement → tweet_metrics st' = tweet_metrics st)
  ∧ (∀ other, other ≠ check_name c →
       last_check_time st' !! other = last_check_time st !! other).
Proof. apply detector_slice_frame. Qed.

Lemma detector_appends_always env TWITTER_USERNAME c client :
  keeps appends (detector env TWITTER_USERNAME c client).
Proof.
  assert (Hsame : ∀ w0 w1,
            notifications (bot_state w1) = notifications (bot_state w0) →
            notifications_file w1 = notifications_file w0 → appends w0 w1).
  { intros w0 w1 Hn Hf. exists [], []. by rewrite Hn, Hf, !app_nil_r. }
  apply (detector_keeps appends).
  - intros w0. apply Hsame; [|apply should_check_files].
    by destruct (should_check_state env (check_name c) (check_interval c) w0)
      as [-> | ->].
  - intros w0. by apply Hsame.
  - intros line w0. by apply Hsame.
  - intros A func w0. destruct (safe_api_call_quiet func w0) as (Hst & _ & Hf).
    apply Hsame; [by rewrite Hst|done].
  - intros message w0.
    exists [log_entry (clock env (ticks w0)) message],
      (match io_fault env (io_ops w0) with
       | NoFault => [log_entry (clock env (ticks w0)) message]
       | _ => []
       end).
    rewrite log_notification_state.
    destruct (log_notification_files env message w0) as [_ ->].
    cbn. destruct (io_fault env (io_ops w0)); rewrite ?app_nil_r;
      repeat split; by repeat constructor.
  - intros w0. apply Hsame;
      [by rewrite save_state_state|apply save_state_notifications_file].
  - destruct c; [|..|split|split]; intros; intros w0; by apply Hsame.
Qed.

(** X12: the notifier sink is append-only under every detector.  The
    notifications in memory after a run are those before it followed by the
    new ones, the same holds for the file, and the entries that reached the
    file are among the new ones in memory, in the same order. *)
Theorem detector_appends env TWITTER_USERNAME c client w :
  let w' := (detector env TWITTER_USERNAME c client w).2 in
  ∃ new filed,
    notifications (bot_state w') = notifications (bot_state w) ++ new
    ∧ notifications_file w' = notifications_file w ++ filed
    ∧ filed `sublist_of` new.
Proof. apply detector_appends_always. Qed.

(** X13: while no file operation fails, the file mirrors the memory: a
    detector appends the same entries, in the same order, to both. *)
Theorem detector_mirrors env TWITTER_USERNAME c client w :
  healthy env →
  let w' := (detector env TWITTER_USERNAME c client w).2 in
  ∃ new,
    notifications (bot_state w') = notifications (bot_state w) ++ new
    ∧ notifications_file w' = notifications_file w ++ new.
Proof.
  intros Hdisk.
  assert (Hsame : ∀ w0 w1,
            notifications (bot_state w1) = notifications (bot_state w0) →
            notifications_file w1 = notifications_file w0 → mirrors w0 w1).
  { intros w0 w1 Hn Hf. exists []. by rewrite Hn, Hf, !app_nil_r. }
  apply (detector_keeps mirrors).
  - intros w0. apply Hsame; [|apply should_check_files].
    by destruct (should_check_state env (check_name c) (check_interval c) w0)
      as [-> | ->].
  - intros w0. by apply Hsame.
  - intros line w0. by apply Hsame.
  - intros A func w0. destruct (safe_api_call_quiet func w0) as (Hst & _ & Hf).
    apply Hsame; [by rewrite Hst|done].
  - intros message w0.
    exists [log_entry (clock env (ticks w0)) message].
    rewrite log_notification_state.
    destruct (log_notification_files env message w0) as [_ ->].
    by rewrite Hdisk.
  - intros w0. apply Hsame;
      [by rewrite save_state_state|apply save_state_notifications_file].
  - destruct c; [|..|split|split]; intros; intros w0; by apply Hsame.
Qed.

Lemma detector_mirrors_witness :
  ∃ new,
    notifications
      (bot_state (detector hourly_env "me" Mentions
                    (client_with [fresh_mention]) full_world).2)
    = notifications (bot_state full_world) ++ new
    ∧ notifications_file
        (detector hourly_env "me" Mentions
           (client_with [fresh_mention]) full_world).2
      = notifications_file full_world ++ new.
Proof.
  apply (detector_mirrors hourly_env "me" Mentions
           (client_with [fresh_mention]) full_world).
  intros n. reflexivity.
Defined.

(** ** The follower detector and the new-post detector *)

Lemma should_check_io_ops env check_type m w :
  io_ops (should_check env check_type m w).2 = io_ops w.
Proof.
  unfold should_check. run.
  destruct (last_check_time (bot_state w) !! check_type); [|done].
  run. by destruct (_ <=? _).
Qed.

(** Opens the gate of a detector in the goal, given that it opens. *)
Ltac open_gate Hgate w :=
  let Hst := fresh "Hst" in
  let Htk := fresh "Hticks" in
  let Hsf := fresh "Hgfile" in
  let Hnf := fresh "Hgnfile" in
  let Hio := fresh "Hgio" in
  match type of Hgate with
  | (should_check ?env ?ty ?m w).1 = true =>
      pose proof (should_check_true env ty m w Hgate) as Hst;
      pose proof (should_check_ticks env ty m w) as Htk;
      pose proof (proj1 (should_check_files env ty m w)) as Hsf;
      pose proof (proj2 (should_check_files env ty m w)) as Hnf;
      pose proof (should_check_io_ops env ty m w) as Hio;
      unfold mbind at 1, M_bind at 1;
      destruct (should_check env ty m w) as [? ?];
      cbn [fst snd] in Hgate, Hst, Htk, Hsf, Hnf, Hio; subst
  end.

(** Runs the next call of [safe_api_call] in the goal, keeping what it
    returns and everything it leaves alone. *)
Ltac step_call w0 :=
  match goal with
  | |- context [safe_api_call ?f ?w1] =>
      let Hres := fresh "Hres" in
      let Hfr := fresh "Hframe" in
      let Hsf := fresh "Hfile" in
      let Hnf := fresh "Hnfile" in
      let Htk := fresh "Hclock" in
      let Hio := fresh "Hio" in
      pose proof (safe_api_call_result f w1 w0) as Hres;
      pose proof (safe_api_call_frame f w1) as Hfr;
      destruct (safe_api_call f w1) as [? ?];
      cbn [fst snd] in Hres, Hfr;
      destruct Hfr as (Hfr & Hsf & Hnf & Htk & Hio);
      cbn [ticks bot_state state_file notifications_file io_ops]
        in Hfr, Hsf, Hnf, Htk, Hio
  end.

(** [bot_state] after the follower detector fetched a count. *)
Lemma check_new_followers_state env client user w :
  (should_check env "followers" 60 w).1 = true →
  (safe_api_call (get_user client) w).1 ≫= data = Some user →
  let last := last_follower_count (bot_state w) in
  let current := followers_count user in
  bot_state (check_new_followers env client w).2
  = set_last_follower_count current
      ((if decide (last = 0 ∨ current = last) then id
        else append_notification
               (log_entry (clock env (S (ticks w)))
                  (follower_message last current)))
         (record_check "followers" (clock env (ticks w)) (bot_state w))).
Proof.
  intros Hgate Hfetch last current.
  unfold check_new_followers. open_gate Hgate w. run.
  step_call w. rewrite Hres, Hfetch. run.
  rewrite Hframe, Hst.
  cbn [record_check set_last_check_time last_follower_count].
  fold last current.
  destruct (Z.eqb_spec last 0) as [Hzero|Hzero]; run.
  { rewrite save_state_state. cbn. rewrite Hframe, Hst.
    by rewrite decide_True by tauto. }
  destruct (Z.eqb_spec (current - last) 0) as [Hsame|Hdiff]; run.
  { rewrite save_state_state. cbn. rewrite Hframe, Hst.
    by rewrite decide_True by (right; lia). }
  match goal with |- context [log_notification env ?msg ?w1] =>
    pose proof (log_notification_state env msg w1) as Hlog;
    destruct (log_notification env msg w1) as [[] w2] end.
  cbn [snd] in Hlog. run.
  rewrite save_state_state. cbn [bot_state]. rewrite Hlog, Hframe, Hst.
  rewrite decide_False by (intros [?|?]; lia).
  rewrite Hclock, Hticks. reflexivity.
Qed.

(** X14: with the gate open and the count fetched, the follower detector
    always stores the fetched count.  It notifies, with the signed
    difference and the new total, exactly when the stored count was not 0
    and differs from the fetched one: a stored 0 means that nothing was
    observed yet, so the first observation, and the one that follows a
    count of 0, is silent. *)
Theorem check_new_followers_update env client user w :
  (should_check env "followers" 60 w).1 = true →
  (safe_api_call (get_user client) w).1 ≫= data = Some user →
  let last := last_follower_count (bot_state w) in
  let current := followers_count user in
  let w' := (check_new_followers env client w).2 in
  last_follower_count (bot_state w') = current
  ∧ notifications (bot_state w')
    = notifications (bot_state w)
      ++ (if decide (last = 0 ∨ current = last) then []
          else [log_entry (clock env (S (ticks w)))
                  (follower_message last current)]).
Proof.
  intros Hgate Hfetch last current w'. subst w'.
  rewrite (check_new_followers_state env client user w Hgate Hfetch).
  fold last current. split; [done|].
  destruct (decide _); cbn; by rewrite ?app_nil_r.
Qed.

Lemma check_new_followers_update_witness :
  let w' :=
    (check_new_followers plain_env (client_with_followers 12)
       ten_followers_world).2 in
  last_follower_count (bot_state w') = 12
  ∧ notifications (bot_state w')
    = [log_entry (clock plain_env 1) (follower_message 10 12)].
Proof.
  apply (check_new_followers_update plain_env (client_with_followers 12)
           (mk_user 1 "me" 12) ten_followers_world); reflexivity.
Defined.

(** [str(a) != str(b)] on integers is [a != b]. *)
Lemma pretty_eqb (a b : Z) :
  String.eqb (pretty a) (pretty b) = bool_decide (a = b).
Proof.
  case_bool_decide as H.
  - subst. apply String.eqb_refl.
  - apply String.eqb_neq. intros Heq. apply H. by apply (inj pretty).
Qed.

(** [bot_state] after the new-post detector fetched posts. *)
Lemma check_new_tweets_state env TWITTER_USERNAME client newest rest w :
  (should_check env "tweets" 30 w).1 = true →
  fetched (safe_api_call (get_users_tweets client) w).1 = Some (newest, rest) →
  let gated := record_check "tweets" (clock env (ticks w)) (bot_state w) in
  bot_state (check_new_tweets env TWITTER_USERNAME client w).2
  = match last_tweet_id (bot_state w) with
    | None => set_last_tweet_id (Some (t_id newest)) gated
    | Some last =>
        if decide (t_id newest = last) then gated
        else set_last_tweet_id (Some (t_id newest))
               (append_notification
                  (log_entry (clock env (S (ticks w)))
                     (new_tweet_message TWITTER_USERNAME newest))
                  gated)
    end.
Proof.
  intros Hgate Hfetch gated.
  unfold check_new_tweets. open_gate Hgate w. run.
  step_call w. rewrite Hres, Hfetch. run.
  rewrite Hframe, Hst.
  cbn [record_check set_last_check_time last_tweet_id].
  destruct (last_tweet_id (bot_state w)) as [last|]; run.
  2:{ rewrite save_state_state. cbn. by rewrite Hframe, Hst. }
  rewrite pretty_eqb. case_bool_decide as Hsame; run.
  { rewrite decide_True by done. by rewrite Hframe, Hst. }
  rewrite decide_False by done.
  match goal with |- context [log_notification env ?msg ?w1] =>
    pose proof (log_notification_state env msg w1) as Hlog;
    destruct (log_notification env msg w1) as [[] w2] end.
  cbn [snd] in Hlog. run.
  rewrite save_state_state. cbn [bot_state]. rewrite Hlog, Hframe, Hst.
  rewrite Hclock, Hticks. reflexivity.
Qed.

(** X15: with the gate open and posts fetched, the new-post detector
    looks at the newest post only.  Afterwards [last_tweet_id] is its
    identifier; nothing is notified on the first observation or when the
    identifier is the stored one, and exactly one notification, about the
    newest post, is appended otherwise, however many of the fetched posts
    are new. *)
Theorem check_new_tweets_update env TWITTER_USERNAME client newest rest w :
  (should_check env "tweets" 30 w).1 = true →
  fetched (safe_api_call (get_users_tweets client) w).1 = Some (newest, rest) →
  let w' := (check_new_tweets env TWITTER_USERNAME client w).2 in
  last_tweet_id (bot_state w') = Some (t_id newest)
  ∧ notifications (bot_state w')
    = notifications (bot_state w)
      ++ match last_tweet_id (bot_state w) with
         | None => []
         | Some last =>
             if decide (t_id newest = last) then []
             else [log_entry (clock env (S (ticks w)))
                     (new_tweet_message TWITTER_USERNAME newest)]
         end.
Proof.
  intros Hgate Hfetch w'. subst w'.
  rewrite (check_new_tweets_state env TWITTER_USERNAME client newest rest w
             Hgate Hfetch).
  destruct (last_tweet_id (bot_state w)) as [last|] eqn:Hlast; cbn.
  - destruct (decide _) as [->|]; cbn; by rewrite ?app_nil_r.
  - by rewrite app_nil_r.
Qed.

Lemma check_new_tweets_update_witness :
  let client :=
    client_with_tweets [post 1700000000000000003; post 1700000000000000002] in
  let w' := (check_new_tweets plain_env "me" client posted_world).2 in
  last_tweet_id (bot_state w') = Some 1700000000000000003
  ∧ notifications (bot_state w')
    = [log_entry (clock plain_env 1)
         (new_tweet_message "me" (post 1700000000000000003))].
Proof.
  apply (check_new_tweets_update plain_env "me"
           (client_with_tweets
              [post 1700000000000000003; post 1700000000000000002])
           (post 1700000000000000003) [post 1700000000000000002]
           posted_world); reflexivity.
Defined.

(** ** The mention detector, cycle by cycle *)

Lemma for_each_mentions_all_seen env author_map l flag w :
  mention_ids l ⊆ processed_mentions (bot_state w) →
  for_each l (mention_body env author_map) flag w = (flag, w).
Proof.
  induction l as [|t l IH]; intros Hseen; [done|].
  rewrite mention_ids_cons in Hseen.
  cbn [for_each]. unfold mbind, M_bind.
  rewrite mention_body_seen by set_solver.
  apply IH. set_solver.
Qed.

(** With the gate open and mentions fetched, the detector is the loop over
    them, run on the state the gate left, followed by the eviction and the
    save if the loop met a new mention. *)
Lemma check_mentions_loop env client w t rest :
  (should_check env "mentions" 45 w).1 = true →
  fetched (safe_api_call (get_users_mentions client) w).1 = Some (t, rest) →
  ∃ author_map w1,
    bot_state w1 = record_check "mentions" (clock env (ticks w)) (bot_state w)
    ∧ state_file w1 = state_file w
    ∧ notifications_file w1 = notifications_file w
    ∧ ticks w1 = S (ticks w)
    ∧ io_ops w1 = io_ops w
    ∧ check_mentions env client w
      = (let '(found, w2) :=
           for_each (t :: rest) (mention_body env author_map) false w1 in
         if found
         then save_state env
                (if (100 <? size (processed_mentions (bot_state w2)))%nat
                 then (modify_state (evict_mentions env) w2).2 else w2)
         else (tt, w2)).
Proof.
  intros Hgate Hfetch.
  unfold check_mentions. open_gate Hgate w. run.
  step_call w. rewrite Hres, Hfetch. run.
  step_call w.
  match goal with |- context [for_each _ (mention_body env ?am) false ?w3] =>
    exists am, w3 end.
  do 5 (split; [congruence|]).
  destruct (for_each _ _ _ _) as [[] w4]; [|done].
  run. by destruct (100 <? _)%nat.
Qed.

(** X16: a cycle that fetches only mentions it has processed is idle.  The
    gate has recorded the time, but nothing else of [bot_state] changes,
    nothing is notified, and the state file is not written (so the new
    timestamp is not on disk). *)
Theorem check_mentions_idle env client w t rest :
  (should_check env "mentions" 45 w).1 = true →
  fetched (safe_api_call (get_users_mentions client) w).1 = Some (t, rest) →
  mention_ids (t :: rest) ⊆ processed_mentions (bot_state w) →
  let w' := (check_mentions env client w).2 in
  bot_state w'
  = set_last_check_time
      (<[ "mentions" := TDatetime (clock env (ticks w)) ]>
         (last_check_time (bot_state w)))
      (bot_state w)
  ∧ state_file w' = state_file w
  ∧ notifications_file w' = notifications_file w.
Proof.
  intros Hgate Hfetch Hseen w'. subst w'.
  destruct (check_mentions_loop env client w t rest Hgate Hfetch)
    as (am & w1 & Hst & Hsf & Hnf & _ & _ & ->).
  rewrite for_each_mentions_all_seen by (by rewrite Hst).
  by cbn.
Qed.

Lemma check_mentions_idle_witness :
  let client := client_with [mention 1005 noon] in
  let w' := (check_mentions hourly_env client full_world).2 in
  bot_state w'
  = set_last_check_time
      (<[ "mentions" := TDatetime noon ]>
         (last_check_time (bot_state full_world)))
      (bot_state full_world)
  ∧ state_file w' = state_file full_world
  ∧ notifications_file w' = notifications_file full_world.
Proof.
  apply (check_mentions_idle hourly_env (client_with [mention 1005 noon])
           full_world (mention 1005 noon) []); [reflexivity..|].
  apply (bool_decide_unpack _). vm_compute. exact I.
Defined.

Lemma check_mentions_gate_shut env client w :
  (should_check env "mentions" 45 w).1 = false →
  bot_state (check_mentions env client w).2 = bot_state w.
Proof.
  intros Hgate. pose proof (should_check_false env _ _ w Hgate) as Hw.
  unfold check_mentions. unfold mbind at 1, M_bind at 1.
  destruct (should_check env "mentions" 45 w) as [ok w1].
  cbn [fst snd] in *. by subst.
Qed.

(** If [processed_mentions] holds at most a hundred identifiers before a
    run of the mention detector, it holds at most a hundred after it. *)
Lemma check_mentions_cap env client w :
  (size (processed_mentions (bot_state w)) ≤ 100)%nat →
  (size (processed_mentions (bot_state (check_mentions env client w).2))
   ≤ 100)%nat.
Proof.
  intros Hsize.
  destruct (should_check env "mentions" 45 w).1 eqn:Hgate.
  2:{ by rewrite check_mentions_gate_shut. }
  destruct (fetched (safe_api_call (get_users_mentions client) w).1)
    as [[t rest]|] eqn:Hfetch.
  2:{ pose proof (failed_fetch_state env "" Mentions client w Hgate Hfetch)
        as Hst.
      cbn [detector check_name] in Hst. by rewrite Hst. }
  rewrite (check_mentions_processed env client w t rest Hgate Hfetch).
  destruct (decide _); [done|].
  destruct (100 <? _)%nat eqn:Hbig.
  - unfold last_n. rewrite size_list_to_set.
    + rewrite length_drop. lia.
    + eapply sublist_NoDup; [apply set_list_NoDup|apply sublist_drop].
  - apply Nat.ltb_ge in Hbig. lia.
Qed.

(** The body of the loop appends at most one notification, and none for a
    mention that was seen. *)
Lemma mention_body_notifications env author_map tweet flag w :
  let w' := (mention_body env author_map tweet flag w).2 in
  (length (notifications (bot_state w'))
   ≤ length (notifications (bot_state w))
     + (if decide (pretty (t_id tweet) ∈ processed_mentions (bot_state w))
        then 0 else 1))%nat.
Proof.
  intros w'. subst w'. case_decide as Hin.
  - rewrite mention_body_seen by done. simpl. lia.
  - destruct (Z.ltb_spec (86400 * 1000000)
                (datetime_sub (clock env (ticks w)) (created_at tweet)))
      as [Hold|Hnew].
    + destruct (mention_body_old env author_map tweet flag w Hin Hold)
        as [_ ->]. cbn. lia.
    + destruct (mention_body_recent env author_map tweet flag w Hin Hnew)
        as [_ [message ->]]. cbn. rewrite length_app. simpl. lia.
Qed.

Lemma for_each_mentions_notifications env author_map l flag w :
  (length (notifications
             (bot_state (for_each l (mention_body env author_map) flag w).2))
   ≤ length (notifications (bot_state w))
     + size (mention_ids l ∖ processed_mentions (bot_state w)))%nat.
Proof.
  revert flag w. induction l as [|t l IH]; intros flag w.
  - simpl. lia.
  - cbn [for_each]. unfold mbind, M_bind.
    pose proof (mention_body_notifications env author_map t flag w) as Hone.
    pose proof (mention_body_processed env author_map t flag w) as Hproc.
    destruct (mention_body env author_map t flag w) as [flag' w1].
    cbn [snd] in Hone, Hproc.
    etrans; [apply IH|]. rewrite Hproc, mention_ids_cons. clear IH Hproc.
    generalize (mention_ids l). intros ids.
    generalize dependent (processed_mentions (bot_state w)). intros seen Hone.
    generalize dependent (pretty (t_id t)). intros i Hone.
    case_decide as Hin.
    + assert (({[i]} ∪ ids) ∖ seen = ids ∖ ({[i]} ∪ seen)) as Heq.
      { clear Hone. set_solver. }
      rewrite Heq. lia.
    + assert (({[i]} ∪ ids) ∖ seen = {[i]} ∪ ids ∖ ({[i]} ∪ seen)) as Heq.
      { clear Hone. apply set_eq. intros x.
        destruct (decide (x = i)); set_solver. }
      assert ({[i]} ## ids ∖ ({[i]} ∪ seen)) as Hdisj.
      { clear Hone Heq. set_solver. }
      rewrite Heq.
      pose proof (size_union ({[i]} : gset string) _ Hdisj) as Hsize.
      rewrite size_singleton in Hsize. lia.
Qed.

(** X17: within one cycle no mention is notified twice.  With the gate
    open and mentions fetched, the number of notifications the cycle appends
    is at most the number of distinct fetched identifiers that were not yet
    in [processed_mentions], even when the fetched list repeats a mention. *)
Theorem check_mentions_notifies_once env client w t rest :
  (should_check env "mentions" 45 w).1 = true →
  fetched (safe_api_call (get_users_mentions client) w).1 = Some (t, rest) →
  let w' := (check_mentions env client w).2 in
  (length (notifications (bot_state w'))
   ≤ length (notifications (bot_state w))
     + size (mention_ids (t :: rest) ∖ processed_mentions (bot_state w)))%nat.
Proof.
  intros Hgate Hfetch w'. subst w'.
  destruct (check_mentions_loop env client w t rest Hgate Hfetch)
    as (am & w1 & Hst & _ & _ & _ & _ & ->).
  pose proof (for_each_mentions_notifications env am (t :: rest) false w1)
    as Hloop.
  rewrite Hst in Hloop.
  cbn [record_check set_last_check_time notifications processed_mentions]
    in Hloop.
  destruct (for_each (t :: rest) (mention_body env am) false w1) as [[] w2];
    cbn [snd] in Hloop; [|done].
  rewrite save_state_state. by destruct (100 <? _)%nat.
Qed.

Lemma check_mentions_notifies_once_witness :
  let w' :=
    (check_mentions hourly_env (client_with repeated_mentions) full_world).2 in
  (length (notifications (bot_state w'))
   ≤ length (notifications (bot_state full_world)) + 2)%nat.
Proof.
  apply (check_mentions_notifies_once hourly_env
           (client_with repeated_mentions) full_world
           fresh_mention
           [mention 1005 noon; fresh_mention; mention 1101 noon]);
    reflexivity.
Defined.

(** ** The engagement detector, cycle by cycle *)

(** X18: without a baseline post the engagement detector does nothing
    after its gate: no call to the API, no output, no change of state, for
    any client; but the gate, if it opened, has recorded the time, so the
    check is not tried again before its interval has passed. *)
Theorem check_tweet_engagement_no_baseline env TWITTER_USERNAME client w :
  last_tweet_id (bot_state w) = None →
  check_tweet_engagement env TWITTER_USERNAME client w
  = (tt, (should_check env "engagement" 120 w).2).
Proof.
  intros Hnone. unfold check_tweet_engagement. unfold mbind at 1, M_bind at 1.
  pose proof (should_check_state env "engagement" 120 w) as Hst.
  destruct (should_check env "engagement" 120 w) as [[] w1]; [|done].
  run. cbn [snd] in Hst.
  assert (last_tweet_id (bot_state w1) = None) as ->; [|done].
  by destruct Hst as [-> | ->].
Qed.

Lemma check_tweet_engagement_no_baseline_witness :
  check_tweet_engagement plain_env "me"
    (client_with_tweets [post 1700000000000000001]) fresh_world
  = (tt, (should_check plain_env "engagement" 120 fresh_world).2).
Proof.
  apply (check_tweet_engagement_no_baseline plain_env "me"
           (client_with_tweets [post 1700000000000000001]) fresh_world).
  reflexivity.
Defined.

(** [bot_state] after the body of the loop. *)
Lemma engagement_body_state env TWITTER_USERNAME tweet flag w :
  ∃ message,
    bot_state (engagement_body env TWITTER_USERNAME tweet flag w).2
    = store_metrics (pretty (t_id tweet)) (public_metrics tweet)
        (match tweet_metrics (bot_state w) !! pretty (t_id tweet) with
         | Some prev =>
             if significant prev (public_metrics tweet)
             then append_notification
                    (log_entry (clock env (ticks w)) message) (bot_state w)
             else bot_state w
         | None => bot_state w
         end).
Proof.
  unfold engagement_body. run.
  destruct (tweet_metrics (bot_state w) !! pretty (t_id tweet)) as [prev|];
    run; [|by exists ""].
  unfold significant. destruct (_ || _ || _); run; [|by exists ""].
  match goal with |- context [log_notification env ?msg w] =>
    pose proof (log_notification_state env msg w) as Hlog;
    destruct (log_notification env msg w) as [[] w1]; exists msg end.
  cbn [snd] in Hlog. run. by rewrite Hlog.
Qed.

Lemma engagement_body_metrics env TWITTER_USERNAME tweet flag w :
  tweet_metrics (bot_state (engagement_body env TWITTER_USERNAME tweet flag w).2)
  = <[pretty (t_id tweet) := public_metrics tweet]>
      (tweet_metrics (bot_state w)).
Proof.
  destruct (engagement_body_state env TWITTER_USERNAME tweet flag w)
    as [message ->].
  cbn. destruct (_ !! _) as [prev|]; [|done]. by destruct (significant _ _).
Qed.

Lemma for_each_engagement_metrics env TWITTER_USERNAME l flag w :
  tweet_metrics
    (bot_state (for_each l (engagement_body env TWITTER_USERNAME) flag w).2)
  = track (tweet_metrics (bot_state w)) l.
Proof.
  revert flag w. induction l as [|t l IH]; intros flag w; [done|].
  cbn [for_each]. unfold mbind, M_bind.
  pose proof (engagement_body_metrics env TWITTER_USERNAME t flag w) as Hstep.
  destruct (engagement_body env TWITTER_USERNAME t flag w) as [flag' w1].
  cbn [snd] in Hstep. rewrite IH, Hstep. done.
Qed.

(** With the gate open, a baseline post and posts fetched, the detector
    is the loop over them, run on the state the gate left, followed by the
    eviction and the save. *)
Lemma check_tweet_engagement_loop env TWITTER_USERNAME client w t rest :
  (should_check env "engagement" 120 w).1 = true →
  is_Some (last_tweet_id (bot_state w)) →
  fetched (safe_api_call (get_users_tweets client) w).1 = Some (t, rest) →
  ∃ w1,
    bot_state w1 = record_check "engagement" (clock env (ticks w)) (bot_state w)
    ∧ state_file w1 = state_file w
    ∧ notifications_file w1 = notifications_file w
    ∧ check_tweet_engagement env TWITTER_USERNAME client w
      = (let w2 :=
           (for_each (t :: rest) (engagement_body env TWITTER_USERNAME)
              false w1).2 in
         save_state env
           (if (10 <? size (tweet_metrics (bot_state w2)))%nat
            then (modify_state evict_metrics w2).2 else w2)).
Proof.
  intros Hgate [i Hbase] Hfetch.
  unfold check_tweet_engagement. open_gate Hgate w. run.
  rewrite Hst. cbn [record_check set_last_check_time last_tweet_id].
  rewrite Hbase. run.
  step_call w. rewrite Hres, Hfetch. run.
  match goal with |- context [for_each _ _ false ?w3] =>
    exists w3;
    pose proof (for_each_engagement_flag env TWITTER_USERNAME t rest false w3)
      as Hflag
  end.
  do 3 (split; [congruence|]).
  destruct (for_each _ _ _ _) as [found w4]. cbn [fst snd] in *. subst found.
  run. by destruct (10 <? _)%nat.
Qed.

(** X19: what a run leaves in [tweet_metrics].  With the gate open, a
    baseline post and posts fetched, every fetched post overwrites the
    counters stored under its identifier (the last one fetched wins) and the
    other tracked posts keep theirs; if that makes more than ten, the posts
    whose identifiers are not among the first ten in descending order of
    strings are dropped, and the ones kept keep these counters. *)
Theorem check_tweet_engagement_metrics env TWITTER_USERNAME client w t rest :
  (should_check env "engagement" 120 w).1 = true →
  is_Some (last_tweet_id (bot_state w)) →
  fetched (safe_api_call (get_users_tweets client) w).1 = Some (t, rest) →
  let tracked := track (tweet_metrics (bot_state w)) (t :: rest) in
  let after :=
    tweet_metrics
      (bot_state (check_tweet_engagement env TWITTER_USERNAME client w).2) in
  ((size tracked ≤ 10)%nat → after = tracked)
  ∧ ((10 < size tracked)%nat →
       ∀ k, after !! k
            = if decide (k ∈ take 10 (sorted_ids tracked))
              then tracked !! k else None).
Proof.
  intros Hgate Hbase Hfetch tracked after. subst after.
  destruct (check_tweet_engagement_loop env TWITTER_USERNAME client w t rest
              Hgate Hbase Hfetch) as (w1 & Hst & _ & _ & ->).
  cbv zeta. rewrite save_state_state.
  pose proof (for_each_engagement_metrics env TWITTER_USERNAME (t :: rest)
                false w1) as Hloop.
  rewrite Hst in Hloop.
  cbn [record_check set_last_check_time tweet_metrics] in Hloop.
  fold tracked in Hloop.
  destruct (for_each _ _ _ _) as [found w2]. cbn [snd] in *.
  rewrite Hloop. split.
  - intros Hsmall. apply Nat.ltb_ge in Hsmall as ->. done.
  - intros Hbig k. apply Nat.ltb_lt in Hbig as ->.
    cbn [modify_state snd bot_state]. rewrite evict_metrics_lookup.
    by rewrite Hloop.
Qed.

Lemma check_tweet_engagement_metrics_witness :
  tweet_metrics
    (bot_state
       (check_tweet_engagement plain_env "me"
          (client_with_tweets [fetched_post 1 1 5; fetched_post 2 2 7])
          untracked_world).2)
  = {[ "1700000000000000001" := mk_metrics 2 2 7 0 ]}.
Proof.
  destruct (check_tweet_engagement_metrics plain_env "me"
              (client_with_tweets [fetched_post 1 1 5; fetched_post 2 2 7])
              untracked_world (fetched_post 1 1 5) [fetched_post 2 2 7])
    as [Hsmall _]; [reflexivity | by eexists | reflexivity |].
  rewrite Hsmall; [reflexivity|]. apply Nat.leb_le. vm_compute. reflexivity.
Defined.

(** ** What the eviction of tracked posts keeps *)

(** The order of strings is transitive. *)
Lemma str_ge_trans : Transitive str_ge.
Proof.
  intros a b c. unfold str_ge, String.leb. revert a b.
  induction c as [|z c IH]; intros [|x a] [|y b]; cbn [String.compare];
    try done.
  unfold Ascii.compare.
  destruct (N.compare_spec (Ascii.N_of_ascii y) (Ascii.N_of_ascii x)),
    (N.compare_spec (Ascii.N_of_ascii z) (Ascii.N_of_ascii y)),
    (N.compare_spec (Ascii.N_of_ascii z) (Ascii.N_of_ascii x));
    try done; try lia.
  apply IH.
Qed.

Lemma sorted_ids_NoDup (m : gmap string Metrics) : NoDup (sorted_ids m).
Proof.
  rewrite sorted_ids_Permutation. apply NoDup_fst_map_to_list.
Qed.

Lemma sorted_ids_length (m : gmap string Metrics) :
  length (sorted_ids m) = size m.
Proof.
  rewrite sorted_ids_Permutation, length_fmap. apply length_map_to_list.
Qed.

(** X20: when more than ten posts are tracked, the eviction keeps exactly
    ten of them, with their counters unchanged, and they are the ten whose
    identifiers come first in the order of strings: every identifier kept is
    at least as large, as a string, as every identifier dropped. *)
Theorem evict_metrics_keeps_largest st :
  (10 < size (tweet_metrics st))%nat →
  let before := tweet_metrics st in
  let after := tweet_metrics (evict_metrics st) in
  size after = 10%nat
  ∧ (∀ k v, after !! k = Some v → before !! k = Some v)
  ∧ (∀ kept dropped,
       is_Some (after !! kept) →
       is_Some (before !! dropped) → after !! dropped = None →
       String.leb dropped kept = true).
Proof.
  intros Hbig before after.
  assert (Hlook : ∀ k, after !! k
            = if decide (k ∈ take 10 (sorted_ids before))
              then before !! k else None)
    by apply evict_metrics_lookup.
  assert (Hkeys : ∀ k, k ∈ take 10 (sorted_ids before) → is_Some (before !! k)).
  { intros k Hk. apply sorted_ids_elem. eapply subseteq_take, Hk. }
  split; [|split].
  - rewrite <- (size_dom (D := gset string)).
    assert (dom after = list_to_set (take 10 (sorted_ids before))) as ->.
    { apply set_eq. intros k.
      rewrite elem_of_dom, Hlook, elem_of_list_to_set.
      case_decide as Hk; [|split; [by intros []|done]].
      split; [done|]. intros _. by apply Hkeys. }
    rewrite size_list_to_set.
    + rewrite length_take, sorted_ids_length. unfold before. lia.
    + eapply sublist_NoDup; [apply sorted_ids_NoDup|apply sublist_take].
  - intros k v. rewrite Hlook. by case_decide.
  - intros kept dropped [v Hkept] Hwas Hdropped.
    rewrite Hlook in Hkept, Hdropped.
    destruct (decide (kept ∈ take 10 (sorted_ids before))) as [Hk|];
      [|done]. clear Hkept.
    destruct (decide (dropped ∈ take 10 (sorted_ids before))) as [Hd|Hd].
    { destruct (Hkeys dropped Hd) as [? Hsome]. congruence. }
    assert (dropped ∈ drop 10 (sorted_ids before)) as Hrest.
    { apply sorted_ids_elem in Hwas.
      rewrite <- (take_drop 10 (sorted_ids before)) in Hwas.
      apply elem_of_app in Hwas as [?|?]; done. }
    assert (StronglySorted str_ge (sorted_ids before)) as Hsorted.
    { apply (@Sorted_StronglySorted _ str_ge str_ge_trans).
      apply sorted_ids_Sorted. }
    rewrite <- (take_drop 10 (sorted_ids before)) in Hsorted.
    exact (StronglySorted_app_1_elem_of _ _ _ kept dropped Hsorted Hk Hrest).
Qed.

Lemma evict_metrics_keeps_largest_witness :
  let st :=
    store_metrics "1000000000000000010" (mk_metrics 0 0 0 0)
      (bot_state ten_tracked_world) in
  size (tweet_metrics (evict_metrics st)) = 10%nat.
Proof.
  intros st.
  destruct (evict_metrics_keeps_largest st) as [Hsize _]; [|exact Hsize].
  apply Nat.ltb_lt. vm_compute. reflexivity.
Defined.

(** ** The two caps *)

(** X21: the bounds on the two collections are invariants of every
    detector.  If [processed_mentions] holds at most a hundred identifiers
    and [tweet_metrics] at most ten posts before a run, so they do after it,
    whatever the client returns. *)
Theorem detector_caps env TWITTER_USERNAME c client w :
  (size (processed_mentions (bot_state w)) ≤ 100)%nat →
  (size (tweet_metrics (bot_state w)) ≤ 10)%nat →
  let w' := (detector env TWITTER_USERNAME c client w).2 in
  (size (processed_mentions (bot_state w')) ≤ 100)%nat
  ∧ (size (tweet_metrics (bot_state w')) ≤ 10)%nat.
Proof.
  intros Hmentions Hmetrics w'. subst w'.
  destruct (detector_slice_frame env TWITTER_USERNAME c client w)
    as (_ & _ & _ & Hpm & Htm & _).
  destruct c; cbn [detector] in *.
  - rewrite Hpm, Htm by done. done.
  - rewrite Hpm, Htm by done. done.
  - rewrite Htm by done. split; [|done]. by apply check_mentions_cap.
  - rewrite Hpm by done. split; [done|].
    by apply check_tweet_engagement_bounded.
Qed.

Lemma detector_caps_witness :
  let w' :=
    (detector hourly_env "me" Mentions (client_with [fresh_mention])
       full_world).2 in
  (size (processed_mentions (bot_state w')) ≤ 100)%nat
  ∧ (size (tweet_metrics (bot_state w')) ≤ 10)%nat.
Proof.
  apply (detector_caps hourly_env "me" Mentions (client_with [fresh_mention])
           full_world); apply Nat.leb_le; vm_compute; reflexivity.
Defined.

(** ** What reaches the state file *)

Lemma save_state_persisted env w :
  healthy env → persisted env (save_state env w).2.
Proof.
  intros Hdisk. unfold persisted.
  by rewrite save_state_file, Hdisk, save_state_state.
Qed.

(** A detector whose gate stays shut is the gate alone. *)
Lemma detector_gate_shut env TWITTER_USERNAME c client w :
  (should_check env (check_name c) (check_interval c) w).1 = false →
  detector env TWITTER_USERNAME c client w = (tt, (datetime_now env w).2).
Proof.
  intros Hgate. pose proof (should_check_false env _ _ w Hgate) as Hw.
  destruct c; cbn [detector check_name check_interval] in *;
    [unfold check_new_followers|unfold check_new_tweets
    |unfold check_mentions|unfold check_tweet_engagement];
    unfold mbind at 1, M_bind at 1;
    destruct (should_check env _ _ w) as [ok w1];
    cbn [fst snd] in *; by subst.
Qed.

(** How a run of a detector ends: with a call of [save_state], or without
    having written the state file and with nothing changed in memory
    except, when the gate opened, the time of the last check. *)
Lemma detector_ends env TWITTER_USERNAME c client w (Q : World → Prop) :
  (∀ w2, Q (save_state env w2).2) →
  (∀ w2, state_file w2 = state_file w →
         bot_state w2 = bot_state w
         ∨ bot_state w2
           = record_check (check_name c) (clock env (ticks w)) (bot_state w) →
         Q w2) →
  Q (detector env TWITTER_USERNAME c client w).2.
Proof.
  intros Hsave Hquiet.
  destruct (should_check env (check_name c) (check_interval c) w).1 eqn:Hgate.
  2:{ rewrite detector_gate_shut by done. apply Hquiet; [done|by left]. }
  destruct c; cbn [detector check_name check_interval] in *.
  - unfold check_new_followers. open_gate Hgate w. run. step_call w.
    destruct o as [[[user|]]|]; run.
    2,3: apply Hquiet; cbn; [congruence|right; congruence].
    destruct (_ =? 0); run; [by apply Hsave|].
    destruct (negb _); run; [|by apply Hsave].
    destruct (log_notification _ _ _) as [[] ?]. run. by apply Hsave.
  - unfold check_new_tweets. open_gate Hgate w. run. step_call w.
    destruct (fetched o) as [[newest rest]|]; run.
    2:{ apply Hquiet; cbn; [congruence|right; congruence]. }
    destruct (last_tweet_id _); run; [|by apply Hsave].
    destruct (negb _); run.
    2:{ apply Hquiet; cbn; [congruence|right; congruence]. }
    destruct (log_notification _ _ _) as [[] ?]. run. by apply Hsave.
  - destruct (fetched (safe_api_call (get_users_mentions client) w).1)
      as [[t rest]|] eqn:Hfetch.
    2:{ unfold check_mentions. open_gate Hgate w. run. step_call w.
        rewrite Hres, Hfetch. run.
        apply Hquiet; cbn; [congruence|right; congruence]. }
    destruct (check_mentions_loop env client w t rest Hgate Hfetch)
      as (am & w1 & Hst & Hsf & Hnf & _ & _ & ->).
    destruct (for_each (t :: rest) (mention_body env am) false w1)
      as [found w2] eqn:Hloop.
    destruct found; [by apply Hsave|]. cbn [snd].
    pose proof (for_each_mentions_flag env am (t :: rest) false w1) as Hflag.
    rewrite Hloop in Hflag. cbn [fst orb] in Hflag.
    symmetry in Hflag. apply bool_decide_eq_false in Hflag.
    assert (mention_ids (t :: rest) ⊆ processed_mentions (bot_state w1))
      as Hseen.
    { by destruct (decide (mention_ids (t :: rest)
                           ⊆ processed_mentions (bot_state w1))). }
    rewrite for_each_mentions_all_seen in Hloop by done.
    injection Hloop as <-. apply Hquiet; [done|by right].
  - unfold check_tweet_engagement. open_gate Hgate w. run.
    rewrite Hst. cbn [record_check set_last_check_time last_tweet_id].
    destruct (last_tweet_id (bot_state w)); run.
    2:{ apply Hquiet; cbn; [congruence|right; congruence]. }
    step_call w. destruct (fetched o) as [[t rest]|]; run.
    2:{ apply Hquiet; cbn; [congruence|right; congruence]. }
    match goal with |- context [for_each _ _ false ?w3] =>
      pose proof (for_each_engagement_flag env TWITTER_USERNAME t rest false w3)
        as Hflag
    end.
    destruct (for_each _ _ _ _) as [found w2]. cbn [fst] in Hflag.
    subst found. run.
    destruct (10 <? _)%nat; run; by apply Hsave.
Qed.

(** X22: on a healthy disk a detector leaves nothing but its own timestamp
    unsaved.  After a run, either the state file holds [bot_state] exactly
    as it is in memory, or the run did not write the file and changed
    nothing in memory except, when its gate opened, the time of its last
    check. *)
Theorem detector_persists env TWITTER_USERNAME c client w :
  healthy env →
  let w' := (detector env TWITTER_USERNAME c client w).2 in
  persisted env w'
  ∨ (state_file w' = state_file w
     ∧ (bot_state w' = bot_state w
        ∨ bot_state w'
          = record_check (check_name c) (clock env (ticks w)) (bot_state w))).
Proof.
  intros Hdisk. cbv zeta.
  apply (detector_ends env TWITTER_USERNAME c client w
           (λ w', persisted env w'
                  ∨ (state_file w' = state_file w
                     ∧ (bot_state w' = bot_state w
                        ∨ bot_state w'
                          = record_check (check_name c) (clock env (ticks w))
                              (bot_state w))))).
  - intros w2. left. by apply save_state_persisted.
  - intros w2 Hfile Hstate. right. by split.
Qed.

Lemma detector_persists_witness :
  let w' :=
    (detector hourly_env "me" Mentions (client_with [fresh_mention])
       full_world).2 in
  persisted hourly_env w'
  ∨ (state_file w' = state_file full_world
     ∧ (bot_state w' = bot_state full_world
        ∨ bot_state w'
          = record_check "mentions" (clock hourly_env (ticks full_world))
              (bot_state full_world))).
Proof.
  apply (detector_persists hourly_env "me" Mentions
           (client_with [fresh_mention]) full_world).
  intros n. reflexivity.
Defined.

(** ** The loop of [main] *)


#[local] Instance stamps_preorder : PreOrder stamps.
Proof.
  split.
  - by intros w k.
  - intros w1 w2 w3 H1 H2 k Hk. by apply H2, H1.
Qed.






#[local] Instance retries_preorder : PreOrder retries.
Proof.
  split.
  - intros w. exists []. by rewrite app_nil_r.
  - intros w1 w2 w3 (r1 & H1 & F1) (r2 & H2 & F2).
    exists (r1 ++ r2). rewrite H2, H1, app_assoc.
    split; [done|by apply Forall_app].
Qed.


Lemma save_state_slept env w : slept (save_state env w).2 = slept w.
Proof. unfold save_state. run. by destruct (io_fault env (io_ops w)). Qed.

Lemma log_notification_slept env message w :
  slept (log_notification env message w).2 = slept w.
Proof. unfold log_notification. run. by destruct (io_fault env (io_ops w)). Qed.










(** ** Before the loop *)

(** Runs the next call of [save_state] in the goal, keeping what it leaves
    alone. *)
Ltac step_save :=
  match goal with
  | |- context [save_state ?env ?w1] =>
      let Hs := fresh "Hsaved" in
      let Ht := fresh "Hsticks" in
      pose proof (save_state_state env w1) as Hs;
      pose proof (save_state_ticks env w1) as Ht;
      destruct (save_state env w1) as [[] ?];
      cbn [fst snd bot_state ticks] in Hs, Ht
  end.

Ltac step_log :=
  match goal with
  | |- context [log_notification ?env ?msg ?w1] =>
      let Hl := fresh "Hlogged" in
      pose proof (log_notification_state env msg w1) as Hl;
      destruct (log_notification env msg w1) as [[] ?];
      cbn [fst snd] in Hl
  end.

(** Brings what is known of the intermediate worlds into the goal. *)
Ltac settle :=
  repeat first
    [ match goal with
      | H : bot_state ?w1 = _ |- context [bot_state ?w1] => rewrite H
      | H : ticks ?w1 = _ |- context [ticks ?w1] => rewrite H
      | H : state_file ?w1 = _ |- context [state_file ?w1] => rewrite H
      | H : notifications_file ?w1 = _ |- context [notifications_file ?w1] =>
          rewrite H
      end
    | progress cbn [bot_state ticks state_file notifications_file
                    user_id last_follower_count last_tweet_id
                    set_user_id set_last_follower_count set_last_tweet_id] ].

(** The two baselines and the entry that announces the loop. *)
Ltac setup_tail w :=
  settle;
  destruct (last_follower_count (bot_state w) =? 0) eqn:?; run;
  [ step_call w;
    match goal with
    | H : ?o = (safe_api_call _ w).1 |- _ =>
        rewrite <- H; destruct (option_bind _ _ data o) eqn:?
    end; run; [step_save; run|]
  | ];
  settle;
  (destruct (last_tweet_id (bot_state w)) eqn:?; run;
   [ | step_call w;
       match goal with
       | H : ?o = (safe_api_call _ w).1 |- context [fetched ?o] =>
           rewrite <- H; destruct (fetched o) as [[? ?]|] eqn:?
       end; run; [step_save; run|] ]);
  settle; step_log; run;
  (eexists; split; [reflexivity|]); settle;
  repeat match goal with
         | H : (_ =? 0) = true |- _ => apply Z.eqb_eq in H
         end;
  unfold running_entry;
  destruct (bot_state w); simplify_eq/=; reflexivity.

(** What [main] has done when it reaches the loop, or returns. *)
Lemma main_setup_run env TWITTER_USERNAME by_name by_id timeline w :
  let st := bot_state w in
  let user := (safe_api_call by_name w).1 ≫= data in
  let profile := (safe_api_call by_id w).1 ≫= data in
  let tweets := fetched (safe_api_call timeline w).1 in
  let proceeds :=
    known (user_id st) || match user with Some _ => true | None => false end in
  ∃ w',
    main_setup env TWITTER_USERNAME by_name by_id timeline w = (proceeds, w')
    ∧ if proceeds then
        bot_state w'
        = append_notification (running_entry (clock env (ticks w)))
            (set_last_tweet_id
               (match last_tweet_id st with
                | Some i => Some i
                | None => (λ p, t_id p.1) <$> tweets
                end)
               (set_last_follower_count
                  (if last_follower_count st =? 0
                   then from_option followers_count 0 profile
                   else last_follower_count st)
                  (set_user_id
                     (if known (user_id st) then user_id st
                      else u_id <$> user) st)))
      else
        bot_state w' = st ∧ state_file w' = state_file w
        ∧ notifications_file w' = notifications_file w.
Proof.
  intros st user profile tweets proceeds.
  subst proceeds st user profile tweets.
  unfold main_setup. run.
  destruct (known (user_id (bot_state w))) eqn:Hknown; run.
  2:{ step_call w. rewrite <- Hres.
      destruct (option_bind _ _ data o) as [u|] eqn:Hu; run.
      2:{ eexists. split; [reflexivity|]. by cbn. }
      step_save. run. setup_tail w. }
  setup_tail w.
Qed.

(** X25: what [main] has done when it reaches the loop.  It returns
    without entering the loop exactly when the user is unknown and the
    lookup gives up or finds nothing, and then [bot_state] and both files
    are as before.  Otherwise a known user, a follower count other than 0
    and a known last post are kept as they are, each missing one is taken
    from its request (and stays missing if the request gives up), the rest
    of [bot_state] is as before, and one notification is appended, stamped
    with the first reading of the clock. *)
Theorem main_setup_outcome env TWITTER_USERNAME by_name by_id timeline w :
  let st := bot_state w in
  let user := (safe_api_call by_name w).1 ≫= data in
  let profile := (safe_api_call by_id w).1 ≫= data in
  let tweets := fetched (safe_api_call timeline w).1 in
  let out := main_setup env TWITTER_USERNAME by_name by_id timeline w in
  let st' := bot_state out.2 in
  (out.1 = false ↔ known (user_id st) = false ∧ user = None)
  ∧ if out.1 then
      user_id st' = (if known (user_id st) then user_id st else u_id <$> user)
      ∧ last_follower_count st'
        = (if last_follower_count st =? 0
           then from_option followers_count 0 profile
           else last_follower_count st)
      ∧ last_tweet_id st'
        = match last_tweet_id st with
          | Some i => Some i
          | None => (λ p, t_id p.1) <$> tweets
          end
      ∧ processed_mentions st' = processed_mentions st
      ∧ tweet_metrics st' = tweet_metrics st
      ∧ last_check_time st' = last_check_time st
      ∧ notifications st'
        = notifications st ++ [running_entry (clock env (ticks w))]
    else
      st' = st ∧ state_file out.2 = state_file w
      ∧ notifications_file out.2 = notifications_file w.
Proof.
  intros st user profile tweets out st'. subst out st'.
  destruct (main_setup_run env TWITTER_USERNAME by_name by_id timeline w)
    as (w' & -> & Hrun).
  fold st user profile tweets in Hrun |- *. cbn [fst snd].
  split.
  { destruct (known (user_id st)), user; cbn; naive_solver. }
  destruct (known (user_id st) || _); [|done].
  rewrite Hrun. by cbn.
Qed.

(** ** The handlers of the loop *)

(** Logging a message and saving: on a healthy disk the state file then
    holds the state in memory, entry included. *)
Lemma log_then_save env message w :
  let w' := (save_state env (log_notification env message w).2).2 in
  bot_state w'
  = append_notification (log_entry (clock env (ticks w)) message) (bot_state w)
  ∧ slept w' = slept w
  ∧ (healthy env → persisted env w').
Proof.
  cbv zeta. rewrite save_state_state, log_notification_state.
  rewrite save_state_slept, log_notification_slept.
  repeat split. intros Hdisk. by apply save_state_persisted.
Qed.

(** X26: the handler of an error in the loop, at the k-th error in a row
    ([k] is one more than the counter it is given).  It returns [k] as the
    new counter; it sleeps once, 300 seconds times [k] up to the twelfth
    error and 3600 seconds from then on; it notifies the first three
    errors and none after; and it saves the state after that, so that on a
    healthy disk the state file holds the state in memory, the entry of the
    error included. *)
Theorem main_on_error_effects env e consecutive_errors w :
  let k := S consecutive_errors in
  let out := main_on_error env e consecutive_errors w in
  out.1 = k
  ∧ slept out.2
    = slept w ++ [if decide (k ≤ 12)%nat then 300 * Z.of_nat k else 3600]
  ∧ notifications (bot_state out.2)
    = notifications (bot_state w)
      ++ (if decide (k ≤ 3)%nat
          then [log_entry (clock env (ticks w)) ("Error: " +:+ e)] else [])
  ∧ (healthy env → persisted env out.2).
Proof.
  intros k out. subst out.
  assert (Z.min (300 * Z.of_nat k) 3600
          = if decide (k ≤ 12)%nat then 300 * Z.of_nat k else 3600) as Hpause.
  { case_decide; lia. }
  unfold main_on_error. fold k. rewrite Hpause. clear Hpause.
  unfold mbind, M_bind. cbn [print snd].
  destruct (Nat.leb_spec k 3) as [Hfew|Hmany].
  - rewrite (decide_True (P := (k ≤ 3)%nat)) by done.
    match goal with |- context [log_notification env ?msg ?w0] =>
      destruct (log_then_save env msg w0) as (Hst & Hsl & Hsaved);
      destruct (log_notification env msg w0) as [[] w1] end.
    cbn [snd] in Hst, Hsl, Hsaved.
    destruct (save_state env w1) as [[] w2]. cbn [snd] in Hst, Hsl, Hsaved.
    cbn in Hst, Hsl |- *. split; [done|]. split; [by rewrite Hsl|].
    split; [by rewrite Hst|]. intros Hdisk. exact (Hsaved Hdisk).
  - rewrite (decide_False (P := (k ≤ 3)%nat)) by lia. unfold pass, mret, M_ret.
    match goal with |- context [save_state env ?w0] =>
      pose proof (save_state_state env w0) as Hst;
      pose proof (save_state_slept env w0) as Hsl;
      pose proof (λ H, save_state_persisted env w0 H) as Hsaved;
      destruct (save_state env w0) as [[] w2] end.
    cbn [snd] in Hst, Hsl, Hsaved.
    cbn in Hst, Hsl |- *. split; [done|]. split; [by rewrite Hsl|].
    split; [by rewrite Hst, app_nil_r|]. intros Hdisk. exact (Hsaved Hdisk).
Qed.

(** X27: a stop loses nothing.  When [main] is interrupted, or stopped by
    an error raised outside the body of the loop, the handler logs the stop
    and saves; on a healthy disk a process that then starts on the file
    loads the state that was in memory at the stop, with the entry of the
    stop as its last notification and with the timestamps as the strings
    that the file holds. *)
Theorem main_on_stop_restart env s w w0 :
  healthy env →
  state_file w0 = state_file (main_on_stop env s w).2 →
  ∃ w'',
    load_state env w0 = Loaded true w''
    ∧ bot_state w''
      = set_last_check_time (as_saved <$> last_check_time (bot_state w))
          (append_notification
             (log_entry (clock env (ticks w)) (stop_message s))
             (bot_state w)).
Proof.
  intros Hdisk Hfile.
  assert (∃ line,
            (main_on_stop env s w).2
            = (save_state env
                 (log_notification env (stop_message s)
                    (print line w).2).2).2) as [line Hrun].
  { destruct s; cbn [main_on_stop stop_message];
      [ unfold main_on_interrupt; exists (nl +:+ "Bot stopped by user.")
      | unfold main_on_fatal; exists ("Fatal error: " +:+ e) ];
      unfold mbind, M_bind; cbn [print snd];
      (destruct (log_notification _ _ _) as [[] w1]); reflexivity. }
  rewrite Hrun in Hfile. clear Hrun.
  destruct (log_then_save env (stop_message s) (print line w).2)
    as (Hst & _ & Hsaved).
  specialize (Hsaved Hdisk). unfold persisted in Hsaved.
  rewrite Hsaved in Hfile.
  destruct (load_saved env _ _ w0 Hfile (Hdisk _)) as (w'' & Hload & Hstate).
  exists w''. split; [exact Hload|].
  rewrite Hstate, Hst. reflexivity.
Qed.

Lemma main_on_stop_restart_witness :
  ∃ w'',
    load_state hourly_env (main_on_stop hourly_env Interrupted tracking_world).2
    = Loaded true w''
    ∧ bot_state w''
      = set_last_check_time
          (as_saved <$> last_check_time (bot_state tracking_world))
          (append_notification
             (log_entry (clock hourly_env (ticks tracking_world))
                (stop_message Interrupted))
             (bot_state tracking_world)).
Proof.
  apply (main_on_stop_restart hourly_env Interrupted tracking_world
           (main_on_stop hourly_env Interrupted tracking_world).2).
  - intros n. reflexivity.
  - reflexivity.
Defined.
